(** * annotate-video-with-multimodal-model: a model of [main.py]

    The script samples one frame of a video every [interval_seconds]
    seconds, asks a multimodal model served by LMStudio to describe
    it, and writes the answers to a CSV file next to the video.

    Conventions of the embedding.
    - A Python [str] is a Rocq [string]; one [ascii] stands for one
      character.
    - A Python [int] is a [Z].  A Python [float] is the rational number
      it denotes ([Q]); every float operation rounds its exact result to
      the nearest binary64 number, ties to even ([round64]).  The
      exponent range is bounded below (subnormals are modelled) but not
      above: overflow to infinity and NaN are left out.  [int(x)] on a
      float truncates toward zero.
    - A raised exception is the [Raise] branch of [result].
    - What the script does to the outside world (prints, OpenCV calls,
      HTTP calls, the CSV file) is recorded, in order, in a trace of
      [event]s; what the outside world answers is read from a [World]. *)

From Stdlib Require Import ZArith QArith Qround Qabs Qpower List Bool Ascii String.
From Stdlib Require Import Lia Lqa Sorted.
Import ListNotations.

Open Scope string_scope.
Open Scope Z_scope.

(** ** Exceptions and the error monad *)

Inductive exn : Type :=
| ZeroDivisionError
| TypeError
| ValueError
| KeyError
| UnboundLocalError
| OSError                      (* with its subclasses, e.g. IsADirectoryError *)
| UnicodeEncodeError
| OtherError (name : string).  (* any other exception class *)

Inductive result (A : Type) : Type :=
| Ok (a : A)
| Raise (e : exn).
Arguments Ok {A} a.
Arguments Raise {A} e.

Definition bind {A B : Type} (m : result A) (k : A -> result B) : result B :=
  match m with
  | Ok a => k a
  | Raise e => Raise e
  end.

Notation "x <- m ;; k" := (bind m (fun x => k))
  (at level 61, m at next level, right associativity).

(** ** Python numerics *)

(** [int(x)] for a float [x]: truncation toward zero. *)
Definition py_int (x : Q) : Z := Z.quot (Qnum x) (Zpos (Qden x)).

(** Round a rational to the nearest integer, ties to even. *)
Definition rne (q : Q) : Z :=
  let k := Qfloor q in
  match (q - inject_Z k ?= 1 # 2)%Q with
  | Lt => k
  | Gt => k + 1
  | Eq => if Z.even k then k else k + 1
  end.

(** [floor (log2 x)] for a positive rational [x]. *)
Definition Qlog2 (x : Q) : Z :=
  let l := Z.log2 (Qnum x) - Z.log2 (Zpos (Qden x)) in
  if Qle_bool (2 ^ l) x then l else l - 1.

(** The exponent of the unit in the last place of the binary64 numbers
    around [x]: 53 significant bits, and no exponent below that of the
    subnormals. *)
Definition exponent (x : Q) : Z := Z.max (Qlog2 (Qabs x) - 52) (-1074).

(** Round to the nearest binary64 number, ties to even: what every
    float operation does to its exact result.  The result is kept in
    lowest terms. *)
Definition round64 (x : Q) : Q :=
  if Qeq_bool x 0 then 0%Q
  else let e := exponent x in Qred (inject_Z (rne (x / 2 ^ e)) * 2 ^ e)%Q.

(** The binary64 numbers: [m * 2^e] with [|m| < 2^53] and [e >= -1074]. *)
Definition is_double (y : Q) : Prop :=
  exists m e, Z.abs m < 2 ^ 53 /\ -1074 <= e /\ (y == inject_Z m * 2 ^ e)%Q.

(** [float(n)] for an [int]: the conversion that mixed arithmetic
    applies to an [int] operand. *)
Definition float_of_int (n : Z) : Q := round64 (inject_Z n).

(** [a / b] on floats: raises on a zero divisor, rounds otherwise. *)
Definition py_truediv (a b : Q) : result Q :=
  if Qeq_bool b 0 then Raise ZeroDivisionError else Ok (round64 (a / b)).

(** [a * b] on floats. *)
Definition py_mul (a b : Q) : Q := round64 (a * b).

(** [list(range(n))]: empty when [n <= 0]. *)
Definition py_range (n : Z) : list Z := map Z.of_nat (seq 0 (Z.to_nat n)).

(** ** Frame sampling arithmetic (main.py, lines 112-126) *)

(** [duration_seconds = total_frames / fps] *)
Definition duration_seconds (total_frames : Z) (fps : Q) : result Q :=
  py_truediv (float_of_int total_frames) fps.

(** [[i * interval_seconds for i in
      range(int(duration_seconds / interval_seconds))]] *)
Definition timestamps (duration : Q) (interval_seconds : Z) : result (list Z) :=
  n <- py_truediv duration (float_of_int interval_seconds) ;;
  Ok (map (fun i => i * interval_seconds) (py_range (py_int n))).

(** Both steps in sequence, as [process_video] runs them. *)
Definition sample_timestamps (total_frames : Z) (fps : Q) (interval_seconds : Z)
  : result (list Z) :=
  d <- duration_seconds total_frames fps ;;
  timestamps d interval_seconds.

(** [frame_id = int(timestamp_sec * fps)] *)
Definition frame_id (timestamp_sec : Z) (fps : Q) : Z :=
  py_int (py_mul (float_of_int timestamp_sec) fps).

(** ** Python strings *)

(** [s.startswith(p)] *)
Definition startswith (p s : string) : bool := String.prefix p s.

(** [s[start:-from_end]] for non-negative [start] and positive
    [from_end]: the characters from index [start] up to, and
    excluding, the last [from_end] ones; empty when these overlap. *)
Definition py_slice (start from_end : nat) (s : string) : string :=
  substring start (String.length s - from_end - start) s.

(** [sub in s] on strings: substring test. *)
Definition str_contains (sub s : string) : bool :=
  match String.index 0 sub s with
  | Some _ => true
  | None => false
  end.

(** [sep.join(items)] for a list of strings. *)
Definition str_join (sep : string) (items : list string) : string :=
  String.concat sep items.

(** The characters of a string, each as a one-character string: what
    iterating over a [str] yields. *)
Fixpoint chars (s : string) : list string :=
  match s with
  | EmptyString => []
  | String c s' => String c EmptyString :: chars s'
  end.

(** ** JSON values, as [json.loads] builds them

    A [dict] is kept as an association list in insertion order with no
    repeated key. *)

#[warnings="-register-all"]
Inductive json : Type :=
| JNull
| JBool (b : bool)
| JInt (n : Z)
| JFloat (x : Q)
| JStr (s : string)
| JArr (items : list json)
| JObj (fields : list (string * json)).

Definition dict : Type := list (string * json).

(** [d.get(key)] / [d[key]] on a present key. *)
Fixpoint dict_get (key : string) (d : dict) : option json :=
  match d with
  | [] => None
  | (k, v) :: d' => if String.eqb k key then Some v else dict_get key d'
  end.

(** [key in d] *)
Definition dict_mem (key : string) (d : dict) : bool :=
  match dict_get key d with
  | Some _ => true
  | None => false
  end.

(** [d[key] = v]: overwrite in place, or append a new key at the end. *)
Fixpoint dict_set (key : string) (v : json) (d : dict) : dict :=
  match d with
  | [] => [(key, v)]
  | (k, v0) :: d' =>
      if String.eqb k key then (k, v) :: d' else (k, v0) :: dict_set key v d'
  end.

Definition dict_keys (d : dict) : list string := map fst d.

(** [x == JStr key] as Python compares a list element with a string. *)
Definition json_is_str (key : string) (x : json) : bool :=
  match x with
  | JStr s => String.eqb s key
  | _ => false
  end.

(** [key in data] for an arbitrary decoded value: key membership on a
    dict, element membership on a list, substring test on a string, and
    [TypeError] on everything else (not iterable). *)
Definition py_in (key : string) (data : json) : result bool :=
  match data with
  | JObj d => Ok (dict_mem key d)
  | JArr l => Ok (existsb (json_is_str key) l)
  | JStr s => Ok (str_contains key s)
  | JNull | JBool _ | JInt _ | JFloat _ => Raise TypeError
  end.

(** [all(key in data for key in keys)], left to right, stopping at the
    first [False]. *)
Fixpoint all_in (keys : list string) (data : json) : result bool :=
  match keys with
  | [] => Ok true
  | k :: ks =>
      b <- py_in k data ;;
      if b then all_in ks data else Ok false
  end.

(** Truth value of an object, as [if annotation:] tests it. *)
Definition truthy (x : json) : bool :=
  match x with
  | JNull => false
  | JBool b => b
  | JInt n => negb (n =? 0)
  | JFloat q => negb (Qeq_bool q 0)
  | JStr s => negb (String.eqb s "")
  | JArr l => match l with [] => false | _ => true end
  | JObj d => match d with [] => false | _ => true end
  end.

(** The strings of a list whose elements are all strings. *)
Fixpoint all_strs (l : list json) : option (list string) :=
  match l with
  | [] => Some []
  | JStr s :: l' =>
      match all_strs l' with
      | Some ss => Some (s :: ss)
      | None => None
      end
  | _ :: _ => None
  end.

(** [", ".join(x)] for an arbitrary value [x]: a list must hold only
    strings, a string is iterated by character, a dict by key; anything
    else is not iterable. *)
Definition join_value (sep : string) (x : json) : result string :=
  match x with
  | JArr l =>
      match all_strs l with
      | Some ss => Ok (str_join sep ss)
      | None => Raise TypeError
      end
  | JStr s => Ok (str_join sep (chars s))
  | JObj d => Ok (str_join sep (dict_keys d))
  | JNull | JBool _ | JInt _ | JFloat _ => Raise TypeError
  end.

(** ** [pathlib.PurePosixPath], as far as [Path(p).with_suffix(s)] needs *)

Record PurePath : Type := mkPath {
  root : string;          (* [""], ["/"] or ["//"] *)
  parts : list string     (* the components after the root *)
}.

(** [s.split(sep)] for a one-character separator. *)
Fixpoint split_on (sep : ascii) (s : string) : list string :=
  match s with
  | EmptyString => [EmptyString]
  | String c s' =>
      if Ascii.eqb c sep then EmptyString :: split_on sep s'
      else match split_on sep s' with
           | [] => [String c EmptyString]
           | p :: ps => String c p :: ps
           end
  end.

(** [s.lstrip(c)] *)
Fixpoint lstrip (c : ascii) (s : string) : string :=
  match s with
  | EmptyString => EmptyString
  | String c' s' => if Ascii.eqb c' c then lstrip c s' else s
  end.

(** POSIX [splitroot]: exactly two leading slashes are kept as the
    root ["//"], any other number collapses to ["/"]. *)
Definition splitroot (s : string) : string * string :=
  match s with
  | String "/"%char _ =>
      let stripped := lstrip "/"%char s in
      if Nat.eqb (String.length s - String.length stripped) 2
      then ("//", stripped) else ("/", stripped)
  | _ => ("", s)
  end.

(** A component is kept unless it is empty or ["."]. *)
Definition keep_part (p : string) : bool :=
  negb (String.eqb p "") && negb (String.eqb p ".").

(** [Path(s)] *)
Definition Path (s : string) : PurePath :=
  let (r, rel) := splitroot s in
  mkPath r (filter keep_part (split_on "/"%char rel)).

(** [p.name]: the last component, [""] when there is none. *)
Definition name (p : PurePath) : string := last (parts p) "".

(** [p.parent], on a path with a name. *)
Definition parent (p : PurePath) : PurePath := mkPath (root p) (removelast (parts p)).

(** [s.rfind(c)], with [None] for Python's [-1]. *)
Fixpoint rfind (c : ascii) (s : string) : option nat :=
  match s with
  | EmptyString => None
  | String c' s' =>
      match rfind c s' with
      | Some i => Some (S i)
      | None => if Ascii.eqb c' c then Some 0%nat else None
      end
  end.

(** The index of the dot that starts the suffix of a file name:
    [i = name.rfind('.')] when [0 < i < len(name) - 1]. *)
Definition suffix_dot (nm : string) : option nat :=
  match rfind "."%char nm with
  | Some i =>
      if (Nat.ltb 0 i && Nat.ltb i (String.length nm - 1))%bool then Some i else None
  | None => None
  end.

(** [PurePath.suffix] and [PurePath.stem] on the name. *)
Definition name_suffix (nm : string) : string :=
  match suffix_dot nm with
  | Some i => substring i (String.length nm - i) nm
  | None => ""
  end.

Definition name_stem (nm : string) : string :=
  match suffix_dot nm with
  | Some i => substring 0 i nm
  | None => nm
  end.

Definition suffix (p : PurePath) : string := name_suffix (name p).
Definition stem (p : PurePath) : string := name_stem (name p).

(** [p.with_suffix(suffix)] *)
Definition with_suffix (p : PurePath) (suf : string) : result PurePath :=
  if str_contains "/" suf then Raise ValueError
  else if (negb (String.eqb suf "") && negb (startswith "." suf)
           || String.eqb suf ".")%bool then Raise ValueError
  else
    let nm := name p in
    if String.eqb nm "" then Raise ValueError
    else
      let old_suffix := name_suffix nm in
      let nm' :=
        if String.eqb old_suffix "" then nm ++ suf
        else substring 0 (String.length nm - String.length old_suffix) nm ++ suf in
      Ok (mkPath (root p) (removelast (parts p) ++ [nm'])).


(** ** [pandas.DataFrame], as far as the script uses it

    A cell is [Some v], or [None] for a missing value: a key that a
    record lacks, or a value that is Python's [None], which pandas
    treats as missing and [to_csv] writes as an empty field. *)

Record DataFrame : Type := mkDF {
  columns : list string;
  rows : list (list (option json))
}.

(** Keys not seen yet are appended, in order. *)
Fixpoint add_new (seen ks : list string) : list string :=
  match ks with
  | [] => seen
  | k :: ks' =>
      if existsb (String.eqb k) seen then add_new seen ks'
      else add_new (seen ++ [k]) ks'
  end.

(** The columns of [pd.DataFrame(records)]: the union of the keys of
    the records, in order of first appearance. *)
Definition union_keys (records : list dict) : list string :=
  fold_left (fun seen d => add_new seen (dict_keys d)) records [].

(** The cell that a record gives under a column label. *)
Definition cell_of (c : string) (d : dict) : option json :=
  match dict_get c d with
  | Some JNull => None
  | v => v
  end.

(** [pd.DataFrame(records)] for a list of dicts. *)
Definition pd_DataFrame (records : list dict) : DataFrame :=
  let cols := union_keys records in
  mkDF cols (map (fun d => map (fun c => cell_of c d) cols) records).

Fixpoint col_index (c : string) (cols : list string) : option nat :=
  match cols with
  | [] => None
  | c' :: cols' =>
      if String.eqb c' c then Some 0%nat
      else match col_index c cols' with
           | Some i => Some (S i)
           | None => None
           end
  end.

Definition cell_at (c : string) (cols : list string) (row : list (option json))
  : option json :=
  match col_index c cols with
  | Some i => nth i row None
  | None => None
  end.

(** [df[cols]] for a list of column labels: [KeyError] when a label is
    not a column of [df]. *)
Definition df_getitem (cols : list string) (df : DataFrame) : result DataFrame :=
  if forallb (fun c => existsb (String.eqb c) (columns df)) cols
  then Ok (mkDF cols
             (map (fun r => map (fun c => cell_at c (columns df) r) cols) (rows df)))
  else Raise KeyError.

(** ** The outside world *)

(** What [client.chat.completions.create(...)] does: it raises an
    exception that is not a [json.JSONDecodeError] (a connection error,
    a timeout, an HTTP error status), it raises [json.JSONDecodeError]
    itself, or it returns a response whose [choices[0].message.content]
    is a string or [None].  A response on which reading that field
    raises (an empty [choices]) goes the way of the first case. *)
Inductive api_reply : Type :=
| ApiRaise (detail : string)
| ApiRaiseJSONDecodeError
| ApiContent (content : option string).

Record World : Type := mkWorld {
  path_exists : string -> bool;            (* [os.path.exists] *)
  models_list : string -> option string;   (* [Some detail]: building the
                                              client or listing the models
                                              at this URL raises *)
  cap_isOpened : string -> bool;           (* [cv2.VideoCapture(p).isOpened()] *)
  cap_fps : Q;                             (* [CAP_PROP_FPS] *)
  cap_frame_count : Q;                     (* [CAP_PROP_FRAME_COUNT] *)
  cap_read : Z -> option string;           (* seek to a frame index and read *)
  imencode_b64 : string -> string;         (* JPEG-encode, then base64 *)
  chat_create : nat -> string -> string -> api_reply;
                                           (* the reply to the n-th request,
                                              given model name and image *)
  to_csv : PurePath -> DataFrame -> option exn
                                           (* [Some e]: writing this table
                                              to this path raises [e] *)
}.

(** ** What the script prints and does *)

Inductive message : Type :=
| MsgVideoNotFound (video_path : string)
| MsgConnectError (api_url : string)
| MsgDetails (detail : string)
| MsgCouldNotOpen
| MsgVideoInfo (video_path : string) (fps duration : Q)
| MsgAnalyzing (interval_seconds : Z)
| MsgMissingKeys (data : json)
| MsgJsonDecodeError (content : string)
| MsgApiError (detail : string)
| MsgAnnotated (timestamp_sec : Z) (title caption : json)
| MsgFailed (timestamp_sec : Z)
| MsgNoAnnotations
| MsgSaved (output_path : PurePath).

Inductive event : Type :=
| Print (m : message)                          (* [print] and [pbar.write] *)
| ModelsList (api_url : string)                (* [client.models.list()] *)
| VideoCapture (video_path : string)
| CapRead (frame_index : Z)                    (* [cap.set] then [cap.read] *)
| ChatCreate (model_name base64_image : string)
| PbarSetDescription (timestamp_sec : Z)
| PbarUpdate
| CapRelease
| ToCsv (output_path : PurePath) (df : DataFrame).

(** The timestamp a message names, if it names one. *)
Definition message_timestamp (m : message) : option Z :=
  match m with
  | MsgAnnotated t _ _ => Some t
  | MsgFailed t => Some t
  | _ => None
  end.

(** The warnings among the messages. *)
Definition is_warning (m : message) : bool :=
  match m with
  | MsgMissingKeys _ | MsgJsonDecodeError _ | MsgApiError _ | MsgFailed _ => true
  | _ => false
  end.

Definition is_probe (e : event) : bool :=
  match e with ModelsList _ => true | _ => false end.

(** Reading a frame or sending one to the model. *)
Definition is_frame_work (e : event) : bool :=
  match e with CapRead _ | ChatCreate _ _ => true | _ => false end.

Definition count_probes (tr : list event) : nat := List.length (filter is_probe tr).

(** The file written by a run, if any.  A write that raises is not
    recorded: it leaves no complete table behind. *)
Fixpoint written (tr : list event) : option (PurePath * DataFrame) :=
  match tr with
  | [] => None
  | ToCsv p df :: _ => Some (p, df)
  | _ :: tr' => written tr'
  end.

(** The timestamps reported as annotated, in order. *)
Fixpoint annotated (tr : list event) : list Z :=
  match tr with
  | [] => []
  | Print (MsgAnnotated t _ _) :: tr' => t :: annotated tr'
  | _ :: tr' => annotated tr'
  end.

(** The timestamps named by a warning, in order. *)
Fixpoint warned (tr : list event) : list Z :=
  match tr with
  | [] => []
  | Print m :: tr' =>
      match is_warning m, message_timestamp m with
      | true, Some t => t :: warned tr'
      | _, _ => warned tr'
      end
  | _ :: tr' => warned tr'
  end.

(** ** The script *)

Open Scope list_scope.

Definition required_keys : list string :=
  ["title"; "caption"; "scene_description"; "persons"; "objects"].

Definition column_order : list string :=
  ["timestamp"; "title"; "caption"; "scene_description"; "persons"; "objects"].

(** Lines 64-65: [if content.startswith("```json"): content = content[7:-4]] *)
Definition strip_fence (content : string) : string :=
  if startswith "```json" content then py_slice 7 4 content else content.

(** The state of the loop of [process_video]. *)
Record loop_state : Type := mkState {
  all_annotations : list dict;
  trace : list event;
  calls : nat                  (* requests sent to the model so far *)
}.

(** A finished run: what happened, and how [process_video] ended. *)
Record run : Type := mkRun {
  events : list event;
  outcome : result unit
}.

Section Script.

(** [json.loads]: [None] stands for [json.JSONDecodeError]. *)
Variable json_loads : string -> option json.

(** [get_frame_annotation(client, base64_image, model_name)]: what it
    did and printed, and how it ended.  The two handlers catch every
    exception raised in the [try] block, but the first one,
    [except json.JSONDecodeError], prints [content]: when it is the
    request itself that raised [json.JSONDecodeError], [content] was
    never assigned and the handler raises [UnboundLocalError], which
    nothing catches. *)
Definition get_frame_annotation
  (client : string -> string -> api_reply) (base64_image model_name : string)
  : list event * result (option json) :=
  let sent := ChatCreate model_name base64_image in
  match client model_name base64_image with
  | ApiRaise detail => ([sent; Print (MsgApiError detail)], Ok None)
  | ApiRaiseJSONDecodeError => ([sent], Raise UnboundLocalError)
  | ApiContent None =>
      (* [content.startswith] on [None]: AttributeError *)
      ([sent; Print (MsgApiError "AttributeError")], Ok None)
  | ApiContent (Some content) =>
      let content := strip_fence content in
      match json_loads content with
      | None => ([sent; Print (MsgJsonDecodeError content)], Ok None)
      | Some data =>
          match all_in required_keys data with
          | Raise _ => ([sent; Print (MsgApiError "TypeError")], Ok None)
          | Ok false => ([sent; Print (MsgMissingKeys data)], Ok None)
          | Ok true => ([sent], Ok (Some data))
          end
      end
  end.

(** [annotation.get(key, [])] *)
Definition get_or_empty (key : string) (d : dict) : json :=
  match dict_get key d with
  | Some v => v
  | None => JArr []
  end.

(** [annotation[key]] *)
Definition getitem (key : string) (d : dict) : result json :=
  match dict_get key d with
  | Some v => Ok v
  | None => Raise KeyError
  end.

(** Lines 145-148.  [round(timestamp_sec, 2)] of an [int] is that
    [int]; item assignment on anything but a dict raises. *)
Definition flatten_annotation (timestamp_sec : Z) (annotation : json) : result dict :=
  match annotation with
  | JObj d =>
      let d1 := dict_set "timestamp" (JInt timestamp_sec) d in
      p <- join_value ", " (get_or_empty "persons" d1) ;;
      let d2 := dict_set "persons" (JStr p) d1 in
      o <- join_value ", " (get_or_empty "objects" d2) ;;
      Ok (dict_set "objects" (JStr o) d2)
  | _ => Raise TypeError
  end.

Definition log (st : loop_state) (es : list event) : loop_state :=
  mkState (all_annotations st) (trace st ++ es) (calls st).

(** One pass through the body of the loop, lines 130-158. *)
Definition step (w : World) (model_name : string) (fps : Q)
  (timestamp_sec : Z) (st : loop_state) : loop_state * result unit :=
  let fid := frame_id timestamp_sec fps in
  let st := log st [CapRead fid] in
  match cap_read w fid with
  | None => (st, Ok tt)                                   (* [continue] *)
  | Some frame =>
      let base64_image := imencode_b64 w frame in
      let st := log st [PbarSetDescription timestamp_sec] in
      let (did, annotation) :=
        get_frame_annotation (chat_create w (calls st)) base64_image model_name in
      let st := mkState (all_annotations st) (trace st ++ did) (S (calls st)) in
      let failed := (log st [Print (MsgFailed timestamp_sec); PbarUpdate], Ok tt) in
      match annotation with
      | Raise e => (st, Raise e)
      | Ok None => failed
      | Ok (Some a) =>
          if truthy a then
            match flatten_annotation timestamp_sec a with
            | Raise e => (st, Raise e)
            | Ok d =>
                match getitem "title" d, getitem "caption" d with
                | Ok title, Ok caption =>
                    (mkState (all_annotations st ++ [d])
                       (trace st ++ [Print (MsgAnnotated timestamp_sec title caption);
                                     PbarUpdate])
                       (calls st),
                     Ok tt)
                | Raise e, _ | _, Raise e =>
                    (mkState (all_annotations st ++ [d]) (trace st) (calls st), Raise e)
                end
            end
          else failed
      end
  end.

(** [for timestamp_sec in timestamps: ...] *)
Fixpoint loop (w : World) (model_name : string) (fps : Q)
  (timestamps : list Z) (st : loop_state) : loop_state * result unit :=
  match timestamps with
  | [] => (st, Ok tt)
  | t :: rest =>
      match step w model_name fps t st with
      | (st', Ok _) => loop w model_name fps rest st'
      | (st', Raise e) => (st', Raise e)
      end
  end.

(** Lines 160-181. *)
Definition finalize (w : World) (video_path : string) (st : loop_state) : run :=
  let tr := trace st ++ [CapRelease] in
  match all_annotations st with
  | [] => mkRun (tr ++ [Print MsgNoAnnotations]) (Ok tt)
  | records =>
      match df_getitem column_order (pd_DataFrame records) with
      | Raise e => mkRun tr (Raise e)
      | Ok df =>
          match with_suffix (Path video_path) ".csv" with
          | Raise e => mkRun tr (Raise e)
          | Ok output_path =>
              match to_csv w output_path df with
              | Some e => mkRun tr (Raise e)
              | None =>
                  mkRun (tr ++ [ToCsv output_path df; Print (MsgSaved output_path)])
                        (Ok tt)
              end
          end
      end
  end.

(** [process_video(video_path, interval_seconds, api_url, model_name)] *)
Definition process_video (w : World)
  (video_path : string) (interval_seconds : Z) (api_url model_name : string) : run :=
  if negb (path_exists w video_path) then
    mkRun [Print (MsgVideoNotFound video_path)] (Ok tt)
  else
    match models_list w api_url with
    | Some detail =>
        mkRun [ModelsList api_url; Print (MsgConnectError api_url);
               Print (MsgDetails detail)] (Ok tt)
    | None =>
        let tr := [ModelsList api_url; VideoCapture video_path] in
        if negb (cap_isOpened w video_path) then
          mkRun (tr ++ [Print MsgCouldNotOpen]) (Ok tt)
        else
          let fps := cap_fps w in
          let total_frames := py_int (cap_frame_count w) in
          match duration_seconds total_frames fps with
          | Raise e => mkRun tr (Raise e)
          | Ok duration =>
              let tr := tr ++ [Print (MsgVideoInfo video_path fps duration);
                               Print (MsgAnalyzing interval_seconds)] in
              match timestamps duration interval_seconds with
              | Raise e => mkRun tr (Raise e)
              | Ok ts =>
                  match loop w model_name fps ts (mkState [] tr 0) with
                  | (st, Raise e) => mkRun (trace st) (Raise e)
                  | (st, Ok _) => finalize w video_path st
                  end
              end
          end
    end.

End Script.

(** ** A decoder for a fragment of JSON

    [json_loads] above stands for Python's [json.loads].  The decoder
    below reads the fragment of JSON that the sample responses use
    (objects, arrays, strings with one-character escapes, integers,
    [true], [false], [null]); it serves to run the script on concrete
    responses. *)

Definition dquote : ascii := Ascii.ascii_of_nat 34.
Definition newline : string := String (Ascii.ascii_of_nat 10) EmptyString.

(** [quoted s] is [s] between double quotes. *)
Definition quoted (s : string) : string :=
  String dquote (s ++ String dquote EmptyString)%string.

Definition is_ws (c : ascii) : bool :=
  let n := Ascii.nat_of_ascii c in
  (Nat.eqb n 32 || Nat.eqb n 9 || Nat.eqb n 10 || Nat.eqb n 13)%bool.

Fixpoint skip_ws (s : string) : string :=
  match s with
  | String c s' => if is_ws c then skip_ws s' else s
  | EmptyString => EmptyString
  end.

Definition unescape (c : ascii) : option ascii :=
  if Ascii.eqb c dquote then Some dquote
  else if Ascii.eqb c "\"%char then Some "\"%char
  else if Ascii.eqb c "/"%char then Some "/"%char
  else if Ascii.eqb c "n"%char then Some (Ascii.ascii_of_nat 10)
  else if Ascii.eqb c "t"%char then Some (Ascii.ascii_of_nat 9)
  else if Ascii.eqb c "r"%char then Some (Ascii.ascii_of_nat 13)
  else None.

(** The rest of a string literal, after its opening quote. *)
Fixpoint read_string (s : string) : option (string * string) :=
  match s with
  | EmptyString => None
  | String c s' =>
      if Ascii.eqb c dquote then Some (EmptyString, s')
      else if Ascii.eqb c "\"%char then
        match s' with
        | EmptyString => None
        | String e s'' =>
            match unescape e, read_string s'' with
            | Some c', Some (body, rest) => Some (String c' body, rest)
            | _, _ => None
            end
        end
      else
        match read_string s' with
        | Some (body, rest) => Some (String c body, rest)
        | None => None
        end
  end.

Definition digit (c : ascii) : option Z :=
  let n := Ascii.nat_of_ascii c in
  if (Nat.leb 48 n && Nat.leb n 57)%bool then Some (Z.of_nat (n - 48)) else None.

Fixpoint read_digits (acc : Z) (s : string) : Z * string :=
  match s with
  | EmptyString => (acc, s)
  | String c s' =>
      match digit c with
      | Some d => read_digits (10 * acc + d) s'
      | None => (acc, s)
      end
  end.

Definition read_int (s : string) : option (json * string) :=
  match s with
  | String "-"%char (String c _ as s') =>
      match digit c with
      | Some _ => let (n, rest) := read_digits 0 s' in Some (JInt (- n), rest)
      | None => None
      end
  | String c _ =>
      match digit c with
      | Some _ => let (n, rest) := read_digits 0 s in Some (JInt n, rest)
      | None => None
      end
  | EmptyString => None
  end.

Definition drop (n : nat) (s : string) : string := substring n (String.length s - n) s.

Fixpoint read_value (fuel : nat) (s : string) {struct fuel} : option (json * string) :=
  match fuel with
  | O => None
  | S fuel' =>
      match skip_ws s with
      | EmptyString => None
      | String c s' as t =>
          if Ascii.eqb c dquote then
            match read_string s' with
            | Some (body, rest) => Some (JStr body, rest)
            | None => None
            end
          else if Ascii.eqb c "["%char then
            match skip_ws s' with
            | String "]"%char rest => Some (JArr [], rest)
            | _ =>
                match read_items fuel' s' with
                | Some (items, rest) => Some (JArr items, rest)
                | None => None
                end
            end
          else if Ascii.eqb c "{"%char then
            match skip_ws s' with
            | String "}"%char rest => Some (JObj [], rest)
            | _ =>
                match read_fields fuel' [] s' with
                | Some (d, rest) => Some (JObj d, rest)
                | None => None
                end
            end
          else if String.prefix "true" t then Some (JBool true, drop 4 t)
          else if String.prefix "false" t then Some (JBool false, drop 5 t)
          else if String.prefix "null" t then Some (JNull, drop 4 t)
          else read_int t
      end
  end

with read_items (fuel : nat) (s : string) {struct fuel} : option (list json * string) :=
  match fuel with
  | O => None
  | S fuel' =>
      match read_value fuel' s with
      | Some (v, rest) =>
          match skip_ws rest with
          | String "]"%char rest' => Some ([v], rest')
          | String ","%char rest' =>
              match read_items fuel' rest' with
              | Some (vs, rest'') => Some (v :: vs, rest'')
              | None => None
              end
          | _ => None
          end
      | None => None
      end
  end

with read_fields (fuel : nat) (d : dict) (s : string) {struct fuel}
  : option (dict * string) :=
  match fuel with
  | O => None
  | S fuel' =>
      match skip_ws s with
      | String c s' =>
          if Ascii.eqb c dquote then
            match read_string s' with
            | Some (key, rest) =>
                match skip_ws rest with
                | String ":"%char rest' =>
                    match read_value fuel' rest' with
                    | Some (v, rest'') =>
                        let d' := dict_set key v d in
                        match skip_ws rest'' with
                        | String "}"%char r => Some (d', r)
                        | String ","%char r => read_fields fuel' d' r
                        | _ => None
                        end
                    | None => None
                    end
                | _ => None
                end
            | None => None
            end
          else None
      | EmptyString => None
      end
  end.

Definition decode (s : string) : option json :=
  match read_value (2 * String.length s + 2) s with
  | Some (v, rest) =>
      match skip_ws rest with
      | EmptyString => Some v
      | _ => None
      end
  | None => None
  end.

(** ** Sample responses and worlds *)

(** A response with the five required keys and one more. *)
Definition sample_text : string :=
  ("{" ++ quoted "title" ++ ": " ++ quoted "Beach day" ++ ", "
   ++ quoted "caption" ++ ": " ++ quoted "A family walks along the shore." ++ ", "
   ++ quoted "mood" ++ ": " ++ quoted "cheerful" ++ ", "
   ++ quoted "scene_description" ++ ": " ++ quoted "Two adults and a child, the sea behind." ++ ", "
   ++ quoted "persons" ++ ": [" ++ quoted "a" ++ ", " ++ quoted "b" ++ "], "
   ++ quoted "objects" ++ ": [" ++ quoted "ball" ++ "]}")%string.

(** The same response inside a markdown code fence. *)
Definition sample_fenced : string :=
  ("```json" ++ newline ++ sample_text ++ newline ++ "```")%string.

(** The same response inside a fence without the language tag. *)
Definition sample_plain_fence : string :=
  ("```" ++ newline ++ sample_text ++ newline ++ "```")%string.

(** The same response with the closing fence right after the brace. *)
Definition sample_tight_fence : string :=
  ("```json" ++ newline ++ sample_text ++ "```")%string.

(** A response that lacks ["objects"]. *)
Definition sample_incomplete : string :=
  ("{" ++ quoted "title" ++ ": " ++ quoted "Garden" ++ ", "
   ++ quoted "caption" ++ ": " ++ quoted "A dog runs." ++ ", "
   ++ quoted "scene_description" ++ ": " ++ quoted "A lawn." ++ ", "
   ++ quoted "persons" ++ ": []}")%string.

(** A 15 second video at 25 frames per second; every frame decodes;
    the model answers alternately bare and fenced; the file can be
    written. *)
Definition holiday : World :=
  mkWorld (fun p => String.eqb p "videos/holiday.mp4")
          (fun _ => None)
          (fun _ => true)
          25 375
          (fun _ => Some "frame")
          (fun frame => frame)
          (fun n _ _ => ApiContent (Some (if Nat.even n then sample_text else sample_fenced)))
          (fun _ _ => None).

Definition set_reads (w : World) (read : Z -> option string) : World :=
  mkWorld (path_exists w) (models_list w) (cap_isOpened w) (cap_fps w)
          (cap_frame_count w) read (imencode_b64 w) (chat_create w) (to_csv w).

Definition set_replies (w : World) (reply : nat -> api_reply) : World :=
  mkWorld (path_exists w) (models_list w) (cap_isOpened w) (cap_fps w)
          (cap_frame_count w) (cap_read w) (imencode_b64 w) (fun n _ _ => reply n)
          (to_csv w).

Definition set_fps (w : World) (fps : Q) : World :=
  mkWorld (path_exists w) (models_list w) (cap_isOpened w) fps
          (cap_frame_count w) (cap_read w) (imencode_b64 w) (chat_create w) (to_csv w).

Definition set_frame_count (w : World) (n : Q) : World :=
  mkWorld (path_exists w) (models_list w) (cap_isOpened w) (cap_fps w)
          n (cap_read w) (imencode_b64 w) (chat_create w) (to_csv w).

Definition set_to_csv (w : World) (f : PurePath -> DataFrame -> option exn) : World :=
  mkWorld (path_exists w) (models_list w) (cap_isOpened w) (cap_fps w)
          (cap_frame_count w) (cap_read w) (imencode_b64 w) (chat_create w) f.

(** The frame at second 5 (index 125) does not decode. *)
Definition holiday_damaged : World :=
  set_reads holiday (fun i => if i =? 125 then None else Some "frame").

(** The model server answers the probe but every request fails. *)
Definition holiday_offline : World :=
  set_replies holiday (fun _ => ApiRaise "Connection error.").

Definition localhost : string := "http://localhost:1234/v1".
Definition llava : string := "llava-hf/llava-1.5-7b-hf".

(** ** Notions used to state the properties *)

(** A response wrapped the way the client recognises: the opening
    marker, the payload, and a closing marker of four characters (a
    line break and three backquotes). *)
Definition fence (body closing : string) : string :=
  ("```json" ++ body ++ closing)%string.

(** The three ways in which the model's reply for a frame can fail.  A
    transport error is an exception of the request that is not a
    [json.JSONDecodeError]. *)
Inductive frame_failure (json_loads : string -> option json) : api_reply -> Prop :=
| TransportError (detail : string) :
    frame_failure json_loads (ApiRaise detail)
| MalformedResponse (content : string) :
    json_loads (strip_fence content) = None ->
    frame_failure json_loads (ApiContent (Some content))
| IncompleteResponse (content : string) (d : dict) (key : string) :
    json_loads (strip_fence content) = Some (JObj d) ->
    In key required_keys ->
    dict_mem key d = false ->
    frame_failure json_loads (ApiContent (Some content)).

(** An annotation that has every column of the table. *)
Definition complete (d : dict) : bool :=
  forallb (fun c => dict_mem c d) column_order.

(** The row of the table that an annotation gives. *)
Definition row_of (d : dict) : list (option json) :=
  map (fun c => cell_of c d) column_order.

(** Events that belong to the work on one frame. *)
Definition per_frame (e : event) : bool :=
  match e with
  | CapRead _ | ChatCreate _ _ | PbarSetDescription _ | PbarUpdate => true
  | Print (MsgApiError _) | Print (MsgJsonDecodeError _) | Print (MsgMissingKeys _)
  | Print (MsgAnnotated _ _ _) | Print (MsgFailed _) => true
  | _ => false
  end.

(** Messages that report a failure. *)
Definition reports_failure (e : event) : bool :=
  match e with
  | Print (MsgVideoNotFound _) | Print (MsgConnectError _) | Print (MsgDetails _)
  | Print MsgCouldNotOpen | Print (MsgApiError _) | Print (MsgJsonDecodeError _)
  | Print (MsgMissingKeys _) | Print (MsgFailed _) | Print MsgNoAnnotations => true
  | _ => false
  end.

(** [subseq l' l]: [l'] is [l] with some elements left out. *)
Inductive subseq {A : Type} : list A -> list A -> Prop :=
| subseq_nil : subseq [] []
| subseq_skip (x : A) (l' l : list A) : subseq l' l -> subseq l' (x :: l)
| subseq_keep (x : A) (l' l : list A) : subseq l' l -> subseq (x :: l') (x :: l).

(** The value that [decode] gives for [sample_text]. *)
Definition sample_dict : dict :=
  [("title", JStr "Beach day");
   ("caption", JStr "A family walks along the shore.");
   ("mood", JStr "cheerful");
   ("scene_description", JStr "Two adults and a child, the sea behind.");
   ("persons", JArr [JStr "a"; JStr "b"]);
   ("objects", JArr [JStr "ball"])].

(** [advance st st' evs anns]: from [st] to [st'] the loop has done
    [evs], all of it work on frames, and has appended the annotations
    [anns], which are complete and carry, in order, the timestamps
    reported as annotated. *)
Definition advance (st st' : loop_state) (evs : list event) (anns : list dict) : Prop :=
  trace st' = trace st ++ evs /\
  all_annotations st' = all_annotations st ++ anns /\
  forallb per_frame evs = true /\
  Forall (fun d => complete d = true) anns /\
  map (dict_get "timestamp") anns = map (fun t => Some (JInt t)) (annotated evs).

(** The run got past the three checks at the start of
    [process_video]: the path exists, the endpoint answers, the video
    opens. *)
Definition started (w : World) (video_path api_url : string) : Prop :=
  path_exists w video_path = true /\
  models_list w api_url = None /\
  cap_isOpened w video_path = true.

(** How a run ends once the loop has been entered, given the
    annotations collected: what is done after the loop, and the
    outcome. *)
Inductive ending (w : World) (video_path : string) (anns : list dict)
  : list event -> result unit -> Prop :=
| EndRaisedInLoop (e : exn) :
    ending w video_path anns [] (Raise e)
| EndEmpty :
    anns = [] ->
    ending w video_path anns [CapRelease; Print MsgNoAnnotations] (Ok tt)
| EndNoName (e : exn) :
    anns <> [] ->
    with_suffix (Path video_path) ".csv" = Raise e ->
    ending w video_path anns [CapRelease] (Raise e)
| EndWriteFailed (p : PurePath) (e : exn) :
    anns <> [] ->
    with_suffix (Path video_path) ".csv" = Ok p ->
    to_csv w p (mkDF column_order (map row_of anns)) = Some e ->
    ending w video_path anns [CapRelease] (Raise e)
| EndWritten (p : PurePath) :
    anns <> [] ->
    with_suffix (Path video_path) ".csv" = Ok p ->
    to_csv w p (mkDF column_order (map row_of anns)) = None ->
    ending w video_path anns
      [CapRelease; ToCsv p (mkDF column_order (map row_of anns)); Print (MsgSaved p)]
      (Ok tt).

(** The possible shapes of a run of [process_video]. *)
Inductive run_shape (w : World) (video_path : string) (interval_seconds : Z)
  (api_url : string) : run -> Prop :=
| RunNotFound :
    path_exists w video_path = false ->
    run_shape w video_path interval_seconds api_url
      (mkRun [Print (MsgVideoNotFound video_path)] (Ok tt))
| RunUnreachable (detail : string) :
    path_exists w video_path = true ->
    models_list w api_url = Some detail ->
    run_shape w video_path interval_seconds api_url
      (mkRun [ModelsList api_url; Print (MsgConnectError api_url);
              Print (MsgDetails detail)] (Ok tt))
| RunNotOpened :
    path_exists w video_path = true ->
    models_list w api_url = None ->
    cap_isOpened w video_path = false ->
    run_shape w video_path interval_seconds api_url
      (mkRun [ModelsList api_url; VideoCapture video_path; Print MsgCouldNotOpen]
             (Ok tt))
| RunZeroFps :
    started w video_path api_url ->
    (cap_fps w == 0)%Q ->
    run_shape w video_path interval_seconds api_url
      (mkRun [ModelsList api_url; VideoCapture video_path] (Raise ZeroDivisionError))
| RunZeroInterval (d : Q) :
    started w video_path api_url ->
    duration_seconds (py_int (cap_frame_count w)) (cap_fps w) = Ok d ->
    interval_seconds = 0 ->
    run_shape w video_path interval_seconds api_url
      (mkRun [ModelsList api_url; VideoCapture video_path;
              Print (MsgVideoInfo video_path (cap_fps w) d);
              Print (MsgAnalyzing interval_seconds)] (Raise ZeroDivisionError))
| RunLoop (d : Q) (ts : list Z) (evs tail : list event) (anns : list dict)
    (res : result unit) :
    started w video_path api_url ->
    duration_seconds (py_int (cap_frame_count w)) (cap_fps w) = Ok d ->
    interval_seconds <> 0 ->
    timestamps d interval_seconds = Ok ts ->
    forallb per_frame evs = true ->
    subseq (annotated evs) ts ->
    Forall (fun a => complete a = true) anns ->
    map (dict_get "timestamp") anns = map (fun t => Some (JInt t)) (annotated evs) ->
    ending w video_path anns tail res ->
    run_shape w video_path interval_seconds api_url
      (mkRun (ModelsList api_url :: VideoCapture video_path ::
              Print (MsgVideoInfo video_path (cap_fps w) d) ::
              Print (MsgAnalyzing interval_seconds) :: evs ++ tail) res).

(** A video that reports a frame rate of zero. *)
Definition holiday_still : World := set_fps holiday 0.

(** The event is a message that names timestamp [t]. *)
Definition names_timestamp (t : Z) (e : event) : bool :=
  match e with
  | Print m =>
      match message_timestamp m with
      | Some t' => t' =? t
      | None => false
      end
  | _ => false
  end.

(** ** Further notions *)

(** A decoded value that is neither a container nor a string. *)
Definition is_scalar (x : json) : bool :=
  match x with
  | JNull | JBool _ | JInt _ | JFloat _ => true
  | _ => false
  end.

Definition is_dict (x : json) : bool :=
  match x with JObj _ => true | _ => false end.

Definition is_str (x : json) : bool :=
  match x with JStr _ => true | _ => false end.

(** A value that [", ".join] accepts: a string, a dict, or a list
    whose elements are all strings. *)
Definition joinable (x : json) : bool :=
  match x with
  | JArr l => forallb is_str l
  | JStr _ | JObj _ => true
  | _ => false
  end.

(** A response that is a JSON list of the five key names. *)
Definition sample_key_list : string :=
  ("[" ++ quoted "title" ++ ", " ++ quoted "caption" ++ ", "
   ++ quoted "scene_description" ++ ", " ++ quoted "persons" ++ ", "
   ++ quoted "objects" ++ "]")%string.

(** The model answers every request with that list. *)
Definition holiday_listing : World :=
  set_replies holiday (fun _ => ApiContent (Some sample_key_list)).

(** The frame indices read, in order. *)
Fixpoint reads (tr : list event) : list Z :=
  match tr with
  | [] => []
  | CapRead i :: tr' => i :: reads tr'
  | _ :: tr' => reads tr'
  end.

(** The requests sent to the model, in order: model name and image. *)
Fixpoint requests (tr : list event) : list (string * string) :=
  match tr with
  | [] => []
  | ChatCreate m img :: tr' => (m, img) :: requests tr'
  | _ :: tr' => requests tr'
  end.

(** How often the progress bar is advanced. *)
Fixpoint updates (tr : list event) : nat :=
  match tr with
  | [] => 0
  | PbarUpdate :: tr' => S (updates tr')
  | _ :: tr' => updates tr'
  end.

(** How often the video is released. *)
Fixpoint releases (tr : list event) : nat :=
  match tr with
  | [] => 0
  | CapRelease :: tr' => S (releases tr')
  | _ :: tr' => releases tr'
  end.

(** The frames that decode among those of the given timestamps. *)
Definition decoded_frames (w : World) (fps : Q) (ts : list Z) : list string :=
  flat_map (fun t => match cap_read w (frame_id t fps) with
                     | Some frame => [frame]
                     | None => []
                     end) ts.

(** The state in which the loop starts. *)
Definition initial_state (w : World) (video_path : string) (interval_seconds : Z)
  (api_url : string) (d : Q) : loop_state :=
  mkState []
    [ModelsList api_url; VideoCapture video_path;
     Print (MsgVideoInfo video_path (cap_fps w) d);
     Print (MsgAnalyzing interval_seconds)] 0.

(** The model's answer for the frame at [t]: the frame decodes, and a
    reply of the model for it holds a text that, once the fence is
    stripped, decodes to a dict with the five required keys. *)
Definition answered (json_loads : string -> option json) (w : World)
  (model : string) (fps : Q) (t : Z) (d0 : dict) : Prop :=
  exists frame n content,
    cap_read w (frame_id t fps) = Some frame /\
    chat_create w n model (imencode_b64 w frame) = ApiContent (Some content) /\
    json_loads (strip_fence content) = Some (JObj d0) /\
    forallb (fun k => dict_mem k d0) required_keys = true.

(** The row that the answer [d0] for the frame at [t] gives: the
    timestamp of the frame, the title, caption and scene description of
    the answer (missing when [null]), and its persons and objects,
    joined.  No other key of the answer has a cell. *)
Definition table_row (t : Z) (d0 : dict) (row : list (option json)) : Prop :=
  exists p o,
    join_value ", " (get_or_empty "persons" d0) = Ok p /\
    join_value ", " (get_or_empty "objects" d0) = Ok o /\
    row = [Some (JInt t); cell_of "title" d0; cell_of "caption" d0;
           cell_of "scene_description" d0; Some (JStr p); Some (JStr o)].




(** The model answers the first request well and the second with the
    list of key names. *)
Definition holiday_spoiled : World :=
  set_replies holiday
    (fun n => ApiContent (Some (if Nat.eqb n 0 then sample_text else sample_key_list))).

(** The model answers the first request well; the second request
    raises [json.JSONDecodeError]. *)
Definition holiday_garbled : World :=
  set_replies holiday
    (fun n => if Nat.eqb n 0 then ApiContent (Some sample_text)
              else ApiRaiseJSONDecodeError).

(** The output path cannot be written, for instance because it is a
    directory. *)
Definition holiday_readonly : World :=
  set_to_csv holiday (fun _ _ => Some OSError).

(** A container that reports a negative frame count. *)
Definition holiday_backwards : World := set_frame_count holiday (-375).

(** * Properties *)

(** ** Rounding to the nearest integer *)

Lemma Qfloor_bounds (q : Q) :
  (inject_Z (Qfloor q) <= q /\ q < inject_Z (Qfloor q) + 1)%Q.
Proof.
  split; [apply Qfloor_le|].
  generalize (Qlt_floor q). rewrite inject_Z_plus. auto.
Qed.

Lemma rne_cases (q : Q) :
  (rne q = Qfloor q /\ (q - inject_Z (Qfloor q) <= 1 # 2)%Q) \/
  (rne q = Qfloor q + 1 /\ (1 # 2 <= q - inject_Z (Qfloor q))%Q).
Proof.
  unfold rne.
  destruct (Qcompare_spec (q - inject_Z (Qfloor q)) (1 # 2)) as [H|H|H].
  - destruct (Z.even (Qfloor q)); [left|right]; split; auto; rewrite H; apply Qle_refl.
  - left. split; auto. apply Qlt_le_weak, H.
  - right. split; auto. apply Qlt_le_weak, H.
Qed.

Lemma rne_near (q : Q) (z : Z) :
  (Qabs (inject_Z (rne q) - q) <= Qabs (inject_Z z - q))%Q.
Proof.
  destruct (Qfloor_bounds q) as [Hl Hu].
  assert (Hz : z <= Qfloor q \/ Qfloor q + 1 <= z) by lia.
  assert (Hz' : (inject_Z z <= inject_Z (Qfloor q) \/ inject_Z (Qfloor q) + 1 <= inject_Z z)%Q).
  { destruct Hz as [Hz|Hz]; [left|right].
    - rewrite <- Zle_Qle. exact Hz.
    - rewrite Zle_Qle, inject_Z_plus in Hz. exact Hz. }
  clear Hz.
  destruct (rne_cases q) as [[-> Hc]|[-> Hc]]; rewrite ?inject_Z_plus;
    apply Qabs_case; intros; apply Qabs_case; intros;
    change (inject_Z 1) with 1%Q in *; destruct Hz'; lra.
Qed.

Lemma rne_half (q : Q) : (Qabs (inject_Z (rne q) - q) <= 1 # 2)%Q.
Proof.
  destruct (Qfloor_bounds q) as [Hl Hu].
  destruct (rne_cases q) as [[-> Hc]|[-> Hc]]; rewrite ?inject_Z_plus;
    apply Qabs_case; intros; change (inject_Z 1) with 1%Q in *; lra.
Qed.

(** ** Powers of two and the binary logarithm *)

Lemma two_nonzero : ~ (2 == 0)%Q.
Proof. discriminate. Qed.

Lemma pow2_pos (e : Z) : (0 < 2 ^ e)%Q.
Proof. apply Qpower_0_lt. reflexivity. Qed.

Lemma pow2_succ (e : Z) : (2 ^ (e + 1) == 2 * 2 ^ e)%Q.
Proof. rewrite Qpower_plus by apply two_nonzero. simpl (2 ^ 1)%Q. ring. Qed.

Lemma pow2_add (a b : Z) : (2 ^ (a + b) == 2 ^ a * 2 ^ b)%Q.
Proof. apply Qpower_plus, two_nonzero. Qed.

Lemma pow2_inject (n : Z) : 0 <= n -> (inject_Z (2 ^ n) == 2 ^ n)%Q.
Proof. intros H. apply (Zpower_Qpower 2 n H). Qed.

Lemma pow2_le (a b : Z) : a <= b -> (2 ^ a <= 2 ^ b)%Q.
Proof.
  intros H. replace b with (a + (b - a)) by lia.
  rewrite pow2_add, <- (pow2_inject (b - a)) by lia.
  assert (1 <= 2 ^ (b - a)) by (apply (Z.pow_le_mono_r 2 0); lia).
  assert (Hq : (1 <= inject_Z (2 ^ (b - a)))%Q) by (rewrite Zle_Qle in H0; exact H0).
  generalize (pow2_pos a). intros. nra.
Qed.

Lemma pow2_lt (a b : Z) : a < b -> (2 ^ a < 2 ^ b)%Q.
Proof.
  intros H. assert (Hle : (2 ^ (a + 1) <= 2 ^ b)%Q) by (apply pow2_le; lia).
  rewrite pow2_succ in Hle. generalize (pow2_pos a). intros. lra.
Qed.

Lemma Qlog2_spec (x : Q) :
  (0 < x)%Q -> (2 ^ Qlog2 x <= x /\ x < 2 ^ (Qlog2 x + 1))%Q.
Proof.
  intros Hx. unfold Qlog2.
  destruct x as [n d]. 
  assert (Hn : 0 < n) by (unfold Qlt in Hx; simpl in Hx; lia).
  set (a := Z.log2 n). set (b := Z.log2 (Z.pos d)).
  destruct (Z.log2_spec n Hn) as [Ha1 Ha2]. fold a in Ha1, Ha2.
  destruct (Z.log2_spec (Z.pos d) eq_refl) as [Hb1 Hb2]. fold b in Hb1, Hb2.
  assert (Ha0 : 0 <= a) by apply Z.log2_nonneg.
  assert (Hb0 : 0 <= b) by apply Z.log2_nonneg.
  simpl Qnum. simpl Qden. fold a b.
  set (X := n # d) in *.
  assert (HX : (X * inject_Z (Z.pos d) == inject_Z n)%Q).
  { unfold X. rewrite (Qmake_Qdiv n d). field. discriminate. }
  assert (HP : (2 ^ (a - b) * 2 ^ b == 2 ^ a)%Q).
  { rewrite <- pow2_add. replace (a - b + b) with a by lia. reflexivity. }
  assert (HP1 : (2 ^ (a - b + 1) == 2 * 2 ^ (a - b))%Q) by apply pow2_succ.
  assert (HP2 : (2 * 2 ^ (a - b - 1) == 2 ^ (a - b))%Q).
  { rewrite <- pow2_succ. replace (a - b - 1 + 1) with (a - b) by lia. reflexivity. }
  rewrite <- (pow2_inject a), <- (pow2_inject b) in HP by lia.
  rewrite Zle_Qle in Ha1, Hb1. rewrite Zlt_Qlt in Ha2, Hb2.
  replace (Z.succ a) with (a + 1) in Ha2 by lia.
  replace (Z.succ b) with (b + 1) in Hb2 by lia.
  rewrite Z.pow_add_r, inject_Z_mult in Ha2, Hb2 by lia.
  change (inject_Z (2 ^ 1)) with 2%Q in *.
  generalize (pow2_pos (a - b)) (pow2_pos (a - b - 1)); intros Hp1 Hp2.
  set (P := (2 ^ (a - b))%Q) in *. set (P' := (2 ^ (a - b - 1))%Q) in *.
  set (A := inject_Z (2 ^ a)) in *. set (B := inject_Z (2 ^ b)) in *.
  set (N := inject_Z n) in *. set (D := inject_Z (Z.pos d)) in *.
  assert (HX0 : (0 < X)%Q) by exact Hx.
  assert (HB0 : (0 < B)%Q).
  { unfold B. rewrite pow2_inject by lia. apply pow2_pos. }
  assert (U1 : (X < 2 * P)%Q).
  { destruct (Qlt_le_dec X (2 * P)) as [|Hge]; auto. exfalso.
    assert ((X - 2 * P) * B >= 0)%Q by nra.
    assert (X * (D - B) >= 0)%Q by nra. nra. }
  assert (U2 : (P' < X)%Q).
  { destruct (Qlt_le_dec P' X) as [|Hge]; auto. exfalso.
    assert ((P' - X) * D >= 0)%Q by nra.
    assert (P' * (2 * B - D) > 0)%Q by nra. nra. }
  destruct (Qle_bool P X) eqn:E.
  - apply Qle_bool_iff in E. split; auto. rewrite HP1. exact U1.
  - assert (HltP : (X < P)%Q).
    { apply Qnot_le_lt. intros Hc. apply Qle_bool_iff in Hc. congruence. }
    split; [apply Qlt_le_weak, U2|].
    replace (a - b - 1 + 1) with (a - b) by lia. exact HltP.
Qed.

(** ** Rounding to binary64 *)

Lemma Qabs_scale (a b u : Q) :
  (0 < u)%Q -> (Qabs (a * u - b * u) == Qabs (a - b) * u)%Q.
Proof.
  intros Hu. setoid_replace (a * u - b * u)%Q with ((a - b) * u)%Q by ring.
  rewrite Qabs_Qmult, (Qabs_pos u); [reflexivity|lra].
Qed.

Lemma Qabs_pos_lt (x : Q) : ~ (x == 0)%Q -> (0 < Qabs x)%Q.
Proof.
  intros H. apply Qabs_case; intros H0.
  - destruct (Qlt_le_dec 0 x); auto. exfalso. apply H. lra.
  - destruct (Qlt_le_dec x 0); [lra|]. exfalso. apply H. lra.
Qed.

Lemma exponent_min (x : Q) : -1074 <= exponent x.
Proof. unfold exponent. lia. Qed.

Lemma exponent_upper (x : Q) :
  ~ (x == 0)%Q -> (Qabs x < 2 ^ (exponent x + 53))%Q.
Proof.
  intros H. destruct (Qlog2_spec (Qabs x) (Qabs_pos_lt x H)) as [_ Hu].
  eapply Qlt_le_trans; [exact Hu|]. apply pow2_le. unfold exponent. lia.
Qed.

Lemma exponent_lower (x : Q) :
  ~ (x == 0)%Q -> exponent x = -1074 \/ (2 ^ (exponent x + 52) <= Qabs x)%Q.
Proof.
  intros H. destruct (Qlog2_spec (Qabs x) (Qabs_pos_lt x H)) as [Hl _].
  unfold exponent.
  destruct (Z.max_spec (Qlog2 (Qabs x) - 52) (-1074)) as [[_ ->]|[_ ->]]; auto.
  right. replace (Qlog2 (Qabs x) - 52 + 52) with (Qlog2 (Qabs x)) by lia. exact Hl.
Qed.

Lemma round64_zero (x : Q) : (x == 0)%Q -> round64 x = 0%Q.
Proof. intros H. unfold round64. apply Qeq_bool_iff in H. rewrite H. reflexivity. Qed.

Lemma round64_nonzero (x : Q) :
  ~ (x == 0)%Q ->
  (round64 x == inject_Z (rne (x / 2 ^ exponent x)) * 2 ^ exponent x)%Q.
Proof.
  intros H. unfold round64. destruct (Qeq_bool x 0) eqn:E.
  - apply Qeq_bool_iff in E. contradiction.
  - apply Qred_correct.
Qed.

Lemma grid_near (x u : Q) (z : Z) :
  (0 < u)%Q ->
  (Qabs (inject_Z (rne (x / u)) * u - x) <= Qabs (inject_Z z * u - x))%Q.
Proof.
  intros Hu.
  assert (Hx : (x == x / u * u)%Q) by (field; lra).
  rewrite Hx at 2 3. rewrite !Qabs_scale by exact Hu.
  generalize (rne_near (x / u) z). intros. nra.
Qed.

Lemma grid_half (x u : Q) :
  (0 < u)%Q -> (Qabs (inject_Z (rne (x / u)) * u - x) <= (1 # 2) * u)%Q.
Proof.
  intros Hu.
  assert (Hx : (x == x / u * u)%Q) by (field; lra).
  rewrite Hx at 2. rewrite !Qabs_scale by exact Hu.
  generalize (rne_half (x / u)). intros. nra.
Qed.

(** [round64 x] is a double nearest to [x]. *)
Lemma round64_nearest (x y : Q) :
  is_double y -> (Qabs (round64 x - x) <= Qabs (y - x))%Q.
Proof.
  intros (m & e' & Hm & He' & Hy).
  destruct (Qeq_dec x 0) as [H0|H0].
  { rewrite (round64_zero x H0). rewrite H0.
    setoid_replace (0 - 0)%Q with 0%Q by ring. apply Qabs_nonneg. }
  rewrite (round64_nonzero x H0). set (e := exponent x).
  generalize (pow2_pos e); intros Hu.
  destruct (Z_le_gt_dec e e') as [Hle|Hgt].
  - assert (Hyz : (y == inject_Z (m * 2 ^ (e' - e)) * 2 ^ e)%Q).
    { rewrite Hy, inject_Z_mult, pow2_inject by lia.
      rewrite <- Qmult_assoc, <- pow2_add. replace (e' - e + e) with e' by lia.
      reflexivity. }
    rewrite Hyz. apply grid_near, Hu.
  - destruct (exponent_lower x H0) as [Hmin|Hlow]; [fold e in Hmin; lia|fold e in Hlow].
    assert (Habs : (Qabs y < 2 ^ (e + 52))%Q).
    { rewrite Hy, Qabs_Qmult, (Qabs_pos (2 ^ e')) by (apply Qlt_le_weak, pow2_pos).
      change (Qabs (inject_Z m)) with (inject_Z (Z.abs m)).
      assert (Hm' : (inject_Z (Z.abs m) < 2 ^ 53)%Q).
      { rewrite <- (pow2_inject 53) by lia. rewrite <- Zlt_Qlt. exact Hm. }
      assert (He1 : (2 ^ e' <= 2 ^ (e - 1))%Q) by (apply pow2_le; lia).
      assert (He2 : (2 ^ (e + 52) == 2 ^ 53 * 2 ^ (e - 1))%Q).
      { rewrite <- pow2_add. replace (53 + (e - 1)) with (e + 52) by lia. reflexivity. }
      rewrite He2. generalize (pow2_pos e') (pow2_pos (e - 1)). intros.
      assert (0 <= inject_Z (Z.abs m))%Q.
      { change 0%Q with (inject_Z 0). rewrite <- Zle_Qle. lia. }
      set (M := inject_Z (Z.abs m)) in *. set (K := (2 ^ 53)%Q) in *. nra. }
    assert (Hg : (2 ^ (e + 52) == inject_Z (2 ^ 52) * 2 ^ e)%Q).
    { rewrite pow2_inject, <- pow2_add by lia. replace (52 + e) with (e + 52) by lia.
      reflexivity. }
    destruct (Qlt_le_dec 0 x) as [Hpos|Hneg].
    + eapply Qle_trans; [apply (grid_near x (2 ^ e) (2 ^ 52) Hu)|].
      rewrite <- Hg. rewrite (Qabs_pos x) in Hlow by lra.
      revert Habs. apply Qabs_case; intros; apply Qabs_case; intros; apply Qabs_case; intros; lra.
    + eapply Qle_trans; [apply (grid_near x (2 ^ e) (- 2 ^ 52) Hu)|].
      rewrite inject_Z_opp.
      setoid_replace (- inject_Z (2 ^ 52) * 2 ^ e)%Q with (- 2 ^ (e + 52))%Q by (rewrite Hg; ring).
      rewrite (Qabs_neg x) in Hlow by lra.
      revert Habs. apply Qabs_case; intros; apply Qabs_case; intros; apply Qabs_case; intros; lra.
Qed.

Lemma is_double_zero : is_double 0.
Proof. exists 0, 0. repeat split; try lia. Qed.

Lemma is_double_Z (z : Z) : Z.abs z <= 2 ^ 53 -> is_double (inject_Z z).
Proof.
  intros H. destruct (Z.eq_dec (Z.abs z) (2 ^ 53)) as [E|E].
  - exists (Z.sgn z * 2 ^ 52), 1. repeat split; try lia.
    change (2 ^ 1)%Q with (inject_Z 2). rewrite <- inject_Z_mult.
    apply inject_Z_injective. lia.
  - exists z, 0. repeat split; try lia. change (2 ^ 0)%Q with 1%Q. ring.
Qed.

Lemma is_double_compat (x y : Q) : (x == y)%Q -> is_double x -> is_double y.
Proof. intros E (m & e & H1 & H2 & H3). exists m, e. rewrite <- E. auto. Qed.

Lemma round64_exact (y : Q) : is_double y -> (round64 y == y)%Q.
Proof.
  intros H. generalize (round64_nearest y y H).
  setoid_replace (y - y)%Q with 0%Q by ring. simpl (Qabs 0).
  apply Qabs_case; intros; lra.
Qed.

Lemma round64_ge (k x : Q) : is_double k -> (k <= x)%Q -> (k <= round64 x)%Q.
Proof.
  intros H Hk. generalize (round64_nearest x k H).
  apply Qabs_case; intros; revert H1; apply Qabs_case; intros; lra.
Qed.

Lemma round64_le (n x : Q) : is_double n -> (x <= n)%Q -> (round64 x <= n)%Q.
Proof.
  intros H Hk. generalize (round64_nearest x n H).
  apply Qabs_case; intros; revert H1; apply Qabs_case; intros; lra.
Qed.

Lemma round64_nonneg (x : Q) : (0 <= x)%Q -> (0 <= round64 x)%Q.
Proof. apply round64_ge, is_double_zero. Qed.

Lemma round64_nonpos (x : Q) : (x <= 0)%Q -> (round64 x <= 0)%Q.
Proof. apply round64_le, is_double_zero. Qed.

Lemma rne_bound (q : Q) (b : Z) :
  (Qabs q <= inject_Z b)%Q -> Z.abs (rne q) <= b.
Proof.
  intros H.
  assert (H1 : (rne q <= b)%Z).
  { generalize (rne_near q b). rewrite Zle_Qle.
    revert H. apply Qabs_case; intros; revert H1; apply Qabs_case; intros;
      revert H2; apply Qabs_case; intros; lra. }
  assert (H2 : (- b <= rne q)%Z).
  { generalize (rne_near q (- b)). rewrite Zle_Qle, !inject_Z_opp.
    revert H. apply Qabs_case; intros; revert H2; apply Qabs_case; intros;
      revert H3; apply Qabs_case; intros; lra. }
  lia.
Qed.

Lemma grid_is_double (x : Q) (e : Z) :
  -1074 <= e -> (Qabs x <= 2 ^ (e + 53))%Q ->
  is_double (inject_Z (rne (x / 2 ^ e)) * 2 ^ e).
Proof.
  intros He Hu. generalize (pow2_pos e). intros Hp.
  assert (Hq : (Qabs (x / 2 ^ e) <= inject_Z (2 ^ 53))%Q).
  { unfold Qdiv. rewrite Qabs_Qmult, (Qabs_pos (/ 2 ^ e)).
    - rewrite pow2_inject by lia. replace (e + 53) with (53 + e) in Hu by lia.
      rewrite pow2_add in Hu.
      apply Qle_shift_div_r; [exact Hp|]. exact Hu.
    - apply Qlt_le_weak, Qinv_lt_0_compat, Hp. }
  apply rne_bound in Hq. set (j := rne (x / 2 ^ e)) in *.
  destruct (Z.eq_dec (Z.abs j) (2 ^ 53)) as [E|E].
  - exists (Z.sgn j * 2 ^ 52), (e + 1). repeat split; try lia.
    rewrite pow2_succ.
    assert (Hj : j = Z.sgn j * 2 ^ 52 * 2) by lia.
    rewrite Hj at 1. rewrite (inject_Z_mult _ 2). change (inject_Z 2) with 2%Q. ring.
  - exists j, e. split; [lia|]. split; [lia|reflexivity].
Qed.

(** The result of [round64] is a double. *)
Lemma round64_is_double (x : Q) : is_double (round64 x).
Proof.
  destruct (Qeq_dec x 0) as [H0|H0].
  { rewrite (round64_zero x H0). apply is_double_zero. }
  apply (is_double_compat _ _ (Qeq_sym _ _ (round64_nonzero x H0))).
  apply grid_is_double; [apply exponent_min|].
  apply Qlt_le_weak, exponent_upper, H0.
Qed.

(** ** Quotients that truncate to the exact floor *)

Lemma Qfloor_unique (r : Q) (k : Z) :
  (inject_Z k <= r)%Q -> (r < inject_Z (k + 1))%Q -> Qfloor r = k.
Proof.
  intros H1 H2.
  assert (A : k <= Qfloor r).
  { rewrite <- (Qfloor_Z k). apply Qfloor_resp_le, H1. }
  assert (B : Qfloor r < k + 1).
  { rewrite Zlt_Qlt. eapply Qle_lt_trans; [apply Qfloor_le|exact H2]. }
  lia.
Qed.

(** Below an integer [y <= 2^53] the nearest double is at least
    [y * 2^-53] away. *)
Lemma double_gap (D : Q) (y : Z) :
  is_double D -> 0 < y <= 2 ^ 53 -> (D < inject_Z y)%Q ->
  (inject_Z y <= (inject_Z y - D) * inject_Z (2 ^ 53))%Q.
Proof.
  intros (m & e & Hm & He & HD) Hy Hlt.
  destruct (Z_le_gt_dec 0 e) as [He0|He0].
  - assert (HDz : (D == inject_Z (m * 2 ^ e))%Q).
    { rewrite HD, inject_Z_mult, pow2_inject by lia. reflexivity. }
    rewrite HDz in *. rewrite <- Zlt_Qlt in Hlt.
    unfold Qminus. rewrite <- inject_Z_opp, <- inject_Z_plus, <- inject_Z_mult, <- Zle_Qle.
    nia.
  - set (s := 2 ^ (- e)).
    assert (Hs : 0 < s) by (apply Z.pow_pos_nonneg; lia).
    assert (Hsq : (0 < inject_Z s)%Q) by (change 0%Q with (inject_Z 0); rewrite <- Zlt_Qlt; exact Hs).
    assert (HDs : (D * inject_Z s == inject_Z m)%Q).
    { rewrite HD. unfold s. rewrite pow2_inject by lia.
      rewrite <- Qmult_assoc, <- pow2_add. replace (e + - e) with 0 by lia.
      change (2 ^ 0)%Q with 1%Q. ring. }
    assert (Hms : m < y * s).
    { rewrite Zlt_Qlt, inject_Z_mult, <- HDs. nra. }
    assert (Hz : y * s <= (y * s - m) * 2 ^ 53).
    { set (K := 2 ^ 53) in *. assert (0 < K) by (unfold K; lia).
      destruct (Z_le_gt_dec (y * s) K).
      - nia.
      - assert (0 <= (y * s - K) * (K - 1)) by nia. nia. }
    rewrite Zle_Qle in Hz. unfold Z.sub in Hz.
    rewrite !inject_Z_mult, inject_Z_plus, inject_Z_opp, inject_Z_mult, <- HDs in Hz.
    set (Y := inject_Z y) in *. set (Sq := inject_Z s) in *.
    set (K := inject_Z (2 ^ 53)) in *.
    assert (Hfac : (Y * Sq <= ((Y - D) * K) * Sq)%Q).
    { setoid_replace ((Y - D) * K * Sq)%Q with ((Y * Sq + - (D * Sq)) * K)%Q by ring.
      exact Hz. }
    apply Qmult_le_r in Hfac; auto.
Qed.

(** Rounding does not reach an integer [n <= 2^53] from below when the
    distance to [n] is at least [n * 2^-53]. *)
Lemma round64_below (x : Q) (n : Z) :
  1 <= n <= 2 ^ 53 -> (0 <= x)%Q -> (x < inject_Z n)%Q ->
  (inject_Z n <= (inject_Z n - x) * inject_Z (2 ^ 53))%Q ->
  (round64 x < inject_Z n)%Q.
Proof.
  intros Hn Hx0 Hxn Hgap.
  set (f := Z.log2_up n - 1).
  assert (Hf : 2 ^ f < n <= 2 ^ (f + 1) /\ -1 <= f <= 52).
  { unfold f. destruct (Z.eq_dec n 1) as [->|Hn1].
    - simpl. lia.
    - destruct (Z.log2_up_spec n) as [A B]; [lia|].
      replace (Z.pred (Z.log2_up n)) with (Z.log2_up n - 1) in A by lia.
      replace (Z.log2_up n - 1 + 1) with (Z.log2_up n) by lia.
      assert (0 < Z.log2_up n) by (apply Z.log2_up_pos; lia).
      assert (Z.log2_up n <= 53).
      { change 53 with (Z.log2_up (2 ^ 53)). apply Z.log2_up_le_mono. lia. }
      lia. }
  destruct Hf as [[Hf1 Hf2] Hf3].
  set (u := (2 ^ (f - 52))%Q).
  assert (Hu : (0 < u)%Q) by apply pow2_pos.
  assert (Hu1 : (inject_Z (2 ^ 53) * u == 2 ^ (f + 1))%Q).
  { unfold u. rewrite pow2_inject, <- pow2_add by lia.
    replace (53 + (f - 52)) with (f + 1) by lia. reflexivity. }
  assert (Hn2 : (inject_Z n <= 2 ^ (f + 1))%Q).
  { destruct (Z.eq_dec f (-1)) as [E|E].
    - rewrite E in *. simpl (-1 + 1). change (2 ^ 0)%Q with (inject_Z 1).
      rewrite <- Zle_Qle. simpl in Hf2. lia.
    - rewrite <- pow2_inject by lia. rewrite <- Zle_Qle. lia. }
  assert (Hn3 : (2 ^ (f + 1) < 2 * inject_Z n)%Q).
  { destruct (Z.eq_dec f (-1)) as [E|E].
    - rewrite E. simpl (-1 + 1). change (2 ^ 0)%Q with 1%Q.
      assert (1 <= inject_Z n)%Q by (change 1%Q with (inject_Z 1); rewrite <- Zle_Qle; lia).
      lra.
    - rewrite pow2_succ, <- pow2_inject by lia.
      assert (inject_Z (2 ^ f) < inject_Z n)%Q by (rewrite <- Zlt_Qlt; lia). lra. }
  set (K := inject_Z (2 ^ 53)) in *.
  assert (HK : (0 < K)%Q) by reflexivity.
  set (y := (inject_Z (rne (x / u)) * u)%Q).
  assert (Hy : is_double y).
  { apply grid_is_double; [lia|].
    replace (f - 52 + 53) with (f + 1) by lia. rewrite Qabs_pos by exact Hx0. lra. }
  generalize (grid_half x u Hu). fold y. intros Hhalf.
  generalize (round64_nearest x y Hy). intros Hnear.
  set (N := inject_Z n) in *.
  assert (Hsmall : ((1 # 2) * u < N - x)%Q).
  { assert (((1 # 2) * u) * K < (N - x) * K)%Q by (rewrite <- Hu1 in Hn3; lra).
    apply Qmult_lt_r in H; auto. }
  assert (Hr : (Qabs (round64 x - x) <= (1 # 2) * u)%Q) by (eapply Qle_trans; eauto).
  revert Hr. apply Qabs_case; intros; lra.
Qed.

(** Dividing a double by a positive integer and rounding never reaches the
    next integer: truncation sees the exact floor. *)
Lemma round64_div_floor (D x : Q) (I : Z) :
  is_double D -> (0 <= D)%Q -> 1 <= I ->
  (D + inject_Z I <= inject_Z (2 ^ 53))%Q ->
  (x == D / inject_Z I)%Q ->
  Qfloor (round64 x) = Qfloor x.
Proof.
  intros HD HD0 HI Hrange Hx.
  assert (HIq : (1 <= inject_Z I)%Q) by (change 1%Q with (inject_Z 1); rewrite <- Zle_Qle; lia).
  assert (HxI : (x * inject_Z I == D)%Q) by (rewrite Hx; field; lra).
  destruct (Qfloor_bounds x) as [Hk1 Hk2]. set (k := Qfloor x) in *.
  assert (Hx0 : (0 <= x)%Q).
  { destruct (Qlt_le_dec x 0); auto. exfalso. nra. }
  assert (Hk0 : 0 <= k).
  { unfold k. change 0 with (Qfloor (inject_Z 0)). apply Qfloor_resp_le, Hx0. }
  assert (Hk0q : (0 <= inject_Z k)%Q) by (change 0%Q with (inject_Z 0); rewrite <- Zle_Qle; lia).
  set (Iq := inject_Z I) in *. set (kq := inject_Z k) in *.
  set (K := inject_Z (2 ^ 53)) in *.
  assert (HyK : ((kq + 1) * Iq <= K)%Q) by nra.
  assert (HnK : (kq + 1 <= K)%Q) by nra.
  assert (HDy : (D < (kq + 1) * Iq)%Q) by nra.
  assert (Hnz : 1 <= k + 1 <= 2 ^ 53).
  { split; [lia|]. rewrite Zle_Qle, inject_Z_plus. exact HnK. }
  assert (Hyz : 0 < (k + 1) * I <= 2 ^ 53).
  { split; [nia|]. rewrite Zle_Qle, inject_Z_mult, inject_Z_plus. exact HyK. }
  assert (Hgap := double_gap D ((k + 1) * I) HD Hyz).
  rewrite inject_Z_mult, inject_Z_plus in Hgap. fold kq Iq K in Hgap.
  change (inject_Z 1) with 1%Q in Hgap. specialize (Hgap HDy).
  assert (Hgap' : (kq + 1 <= (kq + 1 - x) * K)%Q).
  { assert (((kq + 1) * Iq <= ((kq + 1 - x) * K) * Iq)%Q) by nra.
    apply Qmult_le_r in H; auto. lra. }
  apply Qfloor_unique.
  - apply round64_ge; [|exact Hk1]. apply is_double_Z. lia.
  - apply round64_below; auto; rewrite inject_Z_plus; auto.
Qed.
(** ** Arithmetic of the sampler *)

Lemma py_int_nonneg (x : Q) : (0 <= x)%Q -> py_int x = Qfloor x.
Proof.
  destruct x as [n d]; unfold py_int, Qfloor, Qle; simpl; intros H.
  apply Z.quot_div_nonneg; lia.
Qed.

Lemma py_int_neg (x : Q) : (x < 0)%Q -> py_int x <= 0 /\ Qfloor x < 0.
Proof.
  destruct x as [n d]; unfold py_int, Qfloor, Qlt; simpl; intros H.
  split.
  - rewrite <- (Z.opp_involutive n), Z.quot_opp_l by lia.
    assert (0 <= Z.quot (- n) (Z.pos d)) by (apply Z.quot_pos; lia). lia.
  - apply Z.div_lt_upper_bound; lia.
Qed.

Lemma py_int_nonpos (x : Q) : (x <= 0)%Q -> py_int x <= 0.
Proof.
  destruct x as [n d]; unfold py_int, Qle; simpl; intros H.
  rewrite <- (Z.opp_involutive n), Z.quot_opp_l by lia.
  assert (0 <= Z.quot (- n) (Z.pos d)) by (apply Z.quot_pos; lia). lia.
Qed.

(** Truncation and floor give the same [range]. *)
Lemma py_range_floor (x : Q) : py_range (py_int x) = py_range (Qfloor x).
Proof.
  unfold py_range.
  destruct (Qlt_le_dec x 0) as [H | H].
  - destruct (py_int_neg x H) as [H1 H2].
    replace (Z.to_nat (py_int x)) with 0%nat by lia.
    replace (Z.to_nat (Qfloor x)) with 0%nat by lia. reflexivity.
  - now rewrite py_int_nonneg.
Qed.

Lemma py_truediv_ok (a b : Q) :
  ~ (b == 0)%Q -> py_truediv a b = Ok (round64 (a / b)).
Proof.
  intros H. unfold py_truediv.
  destruct (Qeq_bool b 0) eqn:E; [apply Qeq_bool_iff in E; contradiction | reflexivity].
Qed.

Lemma py_truediv_zero (a b : Q) : (b == 0)%Q -> py_truediv a b = Raise ZeroDivisionError.
Proof.
  intros H. unfold py_truediv. apply Qeq_bool_iff in H. now rewrite H.
Qed.

Lemma inject_Z_nonzero (z : Z) : z <> 0 -> ~ (inject_Z z == 0)%Q.
Proof. unfold Qeq; simpl. lia. Qed.

(** Conversion of an [int] to a float is exact up to [2^53], and keeps
    the sign of every [int]. *)
Lemma float_of_int_exact (z : Z) :
  Z.abs z <= 2 ^ 53 -> (float_of_int z == inject_Z z)%Q.
Proof. intros H. apply round64_exact, is_double_Z, H. Qed.

Lemma float_of_int_pos (z : Z) : 0 < z -> (1 <= float_of_int z)%Q.
Proof.
  intros H. apply round64_ge; [apply (is_double_Z 1); lia|].
  change 1%Q with (inject_Z 1). rewrite <- Zle_Qle. lia.
Qed.

Lemma float_of_int_neg (z : Z) : z < 0 -> (float_of_int z <= - (1))%Q.
Proof.
  intros H. apply round64_le; [apply (is_double_Z (-1)); lia|].
  change (- (1))%Q with (inject_Z (-1)). rewrite <- Zle_Qle. lia.
Qed.

Lemma float_of_int_nonzero (z : Z) : z <> 0 -> ~ (float_of_int z == 0)%Q.
Proof.
  intros H E. destruct (Z_lt_ge_dec z 0) as [Hn|Hp].
  - generalize (float_of_int_neg z Hn). rewrite E. intros; lra.
  - assert (Hz : 0 < z) by lia.
    generalize (float_of_int_pos z Hz). rewrite E. intros; lra.
Qed.




(** The list comprehension of line 124, for any non-zero interval. *)
Lemma timestamps_ok (d : Q) (i : Z) :
  i <> 0 ->
  timestamps d i =
    Ok (map (fun k => k * i) (py_range (py_int (round64 (d / float_of_int i))))).
Proof.
  intros Hi. unfold timestamps.
  rewrite py_truediv_ok by now apply float_of_int_nonzero.
  reflexivity.
Qed.

(** The float quotient [duration_seconds / interval_seconds] truncates
    to the floor of the exact quotient, for a duration that is a double
    and a positive interval, as long as both stay below [2^53]. *)
Lemma quotient_floor (d : Q) (i : Z) :
  is_double d -> 0 < i -> (d + inject_Z i <= inject_Z (2 ^ 53))%Q ->
  py_range (py_int (round64 (d / float_of_int i))) =
  py_range (Qfloor (d / inject_Z i)).
Proof.
  intros Hd Hi Hr.
  assert (Hiq : (1 <= inject_Z i)%Q).
  { change 1%Q with (inject_Z 1). rewrite <- Zle_Qle. lia. }
  destruct (Qlt_le_dec d 0) as [Hneg | Hpos].
  - assert (Hf := float_of_int_pos i Hi).
    assert (Hx : (d / float_of_int i <= 0)%Q).
    { apply Qle_shift_div_r; lra. }
    assert (Hy : (d / inject_Z i < 0)%Q).
    { apply Qlt_shift_div_r; lra. }
    generalize (py_int_nonpos _ (round64_nonpos _ Hx)).
    destruct (py_int_neg _ Hy) as [_ Hfl]. intros Hq.
    unfold py_range.
    replace (Z.to_nat (py_int (round64 (d / float_of_int i)))) with 0%nat by lia.
    replace (Z.to_nat (Qfloor (d / inject_Z i))) with 0%nat by lia. reflexivity.
  - assert (Hie : (float_of_int i == inject_Z i)%Q).
    { apply float_of_int_exact.
      assert (inject_Z i <= inject_Z (2 ^ 53))%Q by lra.
      rewrite <- Zle_Qle in H. lia. }
    assert (Hx : (d / float_of_int i == d / inject_Z i)%Q) by (rewrite Hie; reflexivity).
    assert (Hx0 : (0 <= d / float_of_int i)%Q).
    { rewrite Hx. apply Qle_shift_div_l; lra. }
    rewrite py_int_nonneg by (apply round64_nonneg, Hx0).
    rewrite (round64_div_floor d (d / float_of_int i) i Hd Hpos) by (lia || assumption).
    now rewrite (Qfloor_comp _ _ Hx).
Qed.

Lemma duration_is_double (total_frames : Z) (fps d : Q) :
  duration_seconds total_frames fps = Ok d -> is_double d.
Proof.
  unfold duration_seconds, py_truediv. destruct (Qeq_bool fps 0); [discriminate|].
  intros H. injection H as <-. apply round64_is_double.
Qed.

Lemma timestamps_floor (d : Q) (i : Z) :
  is_double d -> 0 < i -> (d + inject_Z i <= inject_Z (2 ^ 53))%Q ->
  timestamps d i = Ok (map (fun k => k * i) (py_range (Qfloor (d / inject_Z i)))).
Proof.
  intros Hd Hi Hr. rewrite timestamps_ok by lia. now rewrite quotient_floor.
Qed.



(** ** Strings and dicts *)

Lemma str_length_app (a b : string) :
  String.length (a ++ b)%string = (String.length a + String.length b)%nat.
Proof. induction a as [| c a IH]; simpl; [reflexivity | now rewrite IH]. Qed.

Lemma substring_app_exact (a b : string) :
  substring 0 (String.length a) (a ++ b)%string = a.
Proof.
  induction a as [| c a IH]; simpl.
  - now destruct b.
  - now rewrite IH.
Qed.

Lemma startswith_app (p s : string) : startswith p (p ++ s)%string = true.
Proof.
  unfold startswith. induction p as [| c p IH]; simpl.
  - now destruct s.
  - destruct (ascii_dec c c) as [_ | N]; [exact IH | now elim N].
Qed.

Lemma strip_fence_fenced (body closing : string) :
  String.length closing = 4%nat -> strip_fence (fence body closing) = body.
Proof.
  intros H. unfold strip_fence, fence, py_slice.
  rewrite startswith_app.
  rewrite !str_length_app, H.
  replace (String.length "```json" + (String.length body + 4) - 4 - 7)%nat
    with (String.length body) by (simpl; lia).
  change (substring 7 (String.length body) ("```json" ++ body ++ closing)%string)
    with (substring 0 (String.length body) (body ++ closing)%string).
  apply substring_app_exact.
Qed.

Lemma strip_fence_bare (content : string) :
  startswith "```json" content = false -> strip_fence content = content.
Proof. intros H. unfold strip_fence. now rewrite H. Qed.

Lemma dict_get_set_same (k : string) (v : json) (d : dict) :
  dict_get k (dict_set k v d) = Some v.
Proof.
  induction d as [| [k0 v0] d IH]; simpl.
  - now rewrite String.eqb_refl.
  - destruct (String.eqb k0 k) eqn:E; simpl; rewrite E; [reflexivity | exact IH].
Qed.

Lemma dict_get_set_other (k k' : string) (v : json) (d : dict) :
  k <> k' -> dict_get k' (dict_set k v d) = dict_get k' d.
Proof.
  intros Hk. induction d as [| [k0 v0] d IH]; simpl.
  - apply String.eqb_neq in Hk. now rewrite Hk.
  - destruct (String.eqb k0 k) eqn:E; simpl.
    + apply String.eqb_eq in E. subst k0.
      apply String.eqb_neq in Hk. now rewrite Hk.
    + now rewrite IH.
Qed.

Lemma dict_mem_set (k k' : string) (v : json) (d : dict) :
  dict_mem k' d = true -> dict_mem k' (dict_set k v d) = true.
Proof.
  unfold dict_mem. destruct (String.eqb k k') eqn:E.
  - apply String.eqb_eq in E. subst. now rewrite dict_get_set_same.
  - apply String.eqb_neq in E. now rewrite dict_get_set_other.
Qed.

Lemma all_strs_strings (l : list string) : all_strs (map JStr l) = Some l.
Proof. induction l as [| s l IH]; simpl; [reflexivity | now rewrite IH]. Qed.

(** Validation of a dict: every required key is a key of the dict. *)
Lemma all_in_dict (keys : list string) (d : dict) :
  all_in keys (JObj d) = Ok (forallb (fun k => dict_mem k d) keys).
Proof.
  induction keys as [| k ks IH]; simpl; [reflexivity |].
  destruct (dict_mem k d); simpl; [exact IH | reflexivity].
Qed.

Lemma forallb_In_true {A : Type} (f : A -> bool) (l : list A) :
  (forall x, In x l -> f x = true) -> forallb f l = true.
Proof. intros H. now apply forallb_forall. Qed.

(** ** The annotation client *)

Lemma client_accepts (json_loads : string -> option json)
  (client : string -> string -> api_reply) (image model content : string) (d : dict) :
  client model image = ApiContent (Some content) ->
  json_loads (strip_fence content) = Some (JObj d) ->
  (forall k, In k required_keys -> dict_mem k d = true) ->
  get_frame_annotation json_loads client image model
  = ([ChatCreate model image], Ok (Some (JObj d))).
Proof.
  intros Hreply Hload Hkeys. unfold get_frame_annotation.
  rewrite Hreply, Hload, all_in_dict.
  now rewrite (forallb_In_true _ _ Hkeys).
Qed.

Lemma flatten_lists (t : Z) (d : dict) (persons objects : list string) :
  dict_get "persons" d = Some (JArr (map JStr persons)) ->
  dict_get "objects" d = Some (JArr (map JStr objects)) ->
  flatten_annotation t (JObj d)
  = Ok (dict_set "objects" (JStr (str_join ", " objects))
          (dict_set "persons" (JStr (str_join ", " persons))
             (dict_set "timestamp" (JInt t) d))).
Proof.
  intros Hp Ho. unfold flatten_annotation, get_or_empty.
  rewrite dict_get_set_other, Hp by discriminate. simpl.
  rewrite all_strs_strings. simpl.
  rewrite !dict_get_set_other, Ho by discriminate. simpl.
  now rewrite all_strs_strings.
Qed.

(** C3 (as amended): take a response that is bare (it does not start
    with the marker with the [json] tag) or that is this marker, a text
    and four more characters, whatever they are.  When the text handed
    to the decoder (the bare response, or what lies between the marker
    and the last four characters) decodes to a dict with the five
    required keys, the client returns that dict, and the driver turns its
    persons and objects lists into strings joined by ", " in the
    original order (["a", "b"] becomes "a, b"); the other fields are
    kept, and the timestamp is added. *)
Theorem C3_well_formed_response (json_loads : string -> option json)
  (client : string -> string -> api_reply) (image model content body : string)
  (d : dict) (persons objects : list string) (t : Z) :
  (content = body /\ startswith "```json" body = false) \/
  (exists closing, String.length closing = 4%nat /\ content = fence body closing) ->
  client model image = ApiContent (Some content) ->
  json_loads body = Some (JObj d) ->
  (forall k, In k required_keys -> dict_mem k d = true) ->
  dict_get "persons" d = Some (JArr (map JStr persons)) ->
  dict_get "objects" d = Some (JArr (map JStr objects)) ->
  get_frame_annotation json_loads client image model
  = ([ChatCreate model image], Ok (Some (JObj d))) /\
  exists a,
    flatten_annotation t (JObj d) = Ok a /\
    dict_get "persons" a = Some (JStr (str_join ", " persons)) /\
    dict_get "objects" a = Some (JStr (str_join ", " objects)) /\
    dict_get "timestamp" a = Some (JInt t) /\
    (forall k, k <> "persons"%string -> k <> "objects"%string ->
               k <> "timestamp"%string -> dict_get k a = dict_get k d) /\
    str_join ", " ["a"; "b"]%string = "a, b"%string.
Proof.
  intros Hshape Hreply Hload Hkeys Hp Ho.
  assert (Hstrip : strip_fence content = body).
  { destruct Hshape as [[-> Hbare] | [closing [Hlen ->]]].
    - now apply strip_fence_bare.
    - now apply strip_fence_fenced. }
  split.
  - apply (client_accepts _ _ _ _ content); [assumption | now rewrite Hstrip | assumption].
  - eexists. split; [apply flatten_lists; eassumption |].
    repeat split.
    + rewrite dict_get_set_other by discriminate. apply dict_get_set_same.
    + apply dict_get_set_same.
    + rewrite !dict_get_set_other by discriminate. apply dict_get_set_same.
    + intros k H1 H2 H3.
      rewrite !dict_get_set_other by congruence. reflexivity.
Qed.

Lemma C3_witness :
  get_frame_annotation decode (fun _ _ => ApiContent (Some sample_fenced)) "frame" llava
  = ([ChatCreate llava "frame"], Ok (Some (JObj sample_dict))) /\
  exists a,
    flatten_annotation 5 (JObj sample_dict) = Ok a /\
    dict_get "persons" a = Some (JStr "a, b") /\
    dict_get "objects" a = Some (JStr "ball") /\
    dict_get "timestamp" a = Some (JInt 5) /\
    (forall k, k <> "persons"%string -> k <> "objects"%string ->
               k <> "timestamp"%string -> dict_get k a = dict_get k sample_dict) /\
    str_join ", " ["a"; "b"]%string = "a, b"%string.
Proof.
  apply (C3_well_formed_response decode (fun _ _ => ApiContent (Some sample_fenced))
           "frame" llava sample_fenced (newline ++ sample_text)%string
           sample_dict ["a"; "b"]%string ["ball"]%string 5).
  - right. exists (newline ++ "```")%string. split; reflexivity.
  - reflexivity.
  - vm_compute. reflexivity.
  - intros k Hk. simpl in Hk.
    repeat (destruct Hk as [<- | Hk]; [reflexivity |]). contradiction.
  - reflexivity.
  - reflexivity.
Defined.

(** Not every well-formed response in a fence is accepted.  A fence
    without the [json] tag is not stripped, and a closing fence that
    follows the payload directly takes the closing brace with it: in
    both cases the text handed to the decoder is not JSON and the
    response is dropped. *)
Lemma C3_counterexample :
  strip_fence sample_plain_fence = sample_plain_fence /\
  get_frame_annotation decode (fun _ _ => ApiContent (Some sample_plain_fence))
    "frame" llava
  = ([ChatCreate llava "frame"; Print (MsgJsonDecodeError sample_plain_fence)], Ok None) /\
  (strip_fence sample_tight_fence ++ "}")%string = (newline ++ sample_text)%string /\
  snd (get_frame_annotation decode (fun _ _ => ApiContent (Some sample_tight_fence))
         "frame" llava) = Ok None.
Proof. vm_compute. repeat split. Qed.

Lemma forallb_false_at {A : Type} (f : A -> bool) (l : list A) (x : A) :
  In x l -> f x = false -> forallb f l = false.
Proof.
  intros Hin Hx. destruct (forallb f l) eqn:E; [| reflexivity].
  rewrite forallb_forall in E. rewrite (E x Hin) in Hx. discriminate.
Qed.

(** Each failure kind makes the client print one warning and return
    [None]. *)
Lemma client_rejects (json_loads : string -> option json)
  (client : string -> string -> api_reply) (image model : string) :
  frame_failure json_loads (client model image) ->
  exists m,
    get_frame_annotation json_loads client image model
    = ([ChatCreate model image; Print m], Ok None) /\
    is_warning m = true /\ message_timestamp m = None.
Proof.
  intros H. unfold get_frame_annotation.
  destruct (client model image) as [detail | | content]; inversion H; subst.
  - eexists. repeat split.
  - rewrite H1. eexists. repeat split.
  - rewrite H1, all_in_dict, (forallb_false_at _ _ key) by assumption.
    eexists. repeat split.
Qed.

(** A response without ["objects"] is one of the failures. *)
Example incomplete_is_failure :
  frame_failure decode (ApiContent (Some sample_incomplete)).
Proof.
  apply (IncompleteResponse decode sample_incomplete
           [("title", JStr "Garden"); ("caption", JStr "A dog runs.");
            ("scene_description", JStr "A lawn."); ("persons", JArr [])]
           "objects"); [vm_compute; reflexivity | simpl; tauto | reflexivity].
Qed.

(** ** The loop *)

Lemma step_decode_failure (json_loads : string -> option json) (w : World)
  (model : string) (fps : Q) (t : Z) (st : loop_state) :
  cap_read w (frame_id t fps) = None ->
  step json_loads w model fps t st = (log st [CapRead (frame_id t fps)], Ok tt).
Proof. intros H. unfold step. now rewrite H. Qed.

Lemma step_client_failure (json_loads : string -> option json) (w : World)
  (model : string) (fps : Q) (t : Z) (st : loop_state) (frame : string) :
  cap_read w (frame_id t fps) = Some frame ->
  frame_failure json_loads (chat_create w (calls st) model (imencode_b64 w frame)) ->
  exists m,
    is_warning m = true /\
    step json_loads w model fps t st
    = (mkState (all_annotations st)
         (trace st ++ [CapRead (frame_id t fps); PbarSetDescription t;
                       ChatCreate model (imencode_b64 w frame); Print m;
                       Print (MsgFailed t); PbarUpdate])
         (S (calls st)),
       Ok tt).
Proof.
  intros Hread Hfail.
  destruct (client_rejects _ _ _ _ Hfail) as [m [Hm [Hw _]]].
  exists m. split; [exact Hw |].
  unfold step. rewrite Hread. simpl. rewrite Hm.
  unfold log. simpl. now rewrite <- !app_assoc.
Qed.

(** C4: when the reply for a frame is a transport error (an
    exception of the request other than [json.JSONDecodeError]), is not
    valid JSON, or lacks a required key, the client returns [None] and
    does not raise, the driver appends nothing to the list of
    annotations, and the loop goes on with the next timestamp. *)
Theorem C4_failure_is_skipped (json_loads : string -> option json) (w : World)
  (model : string) (fps : Q) (t : Z) (rest : list Z) (st : loop_state)
  (frame : string) :
  cap_read w (frame_id t fps) = Some frame ->
  frame_failure json_loads (chat_create w (calls st) model (imencode_b64 w frame)) ->
  snd (get_frame_annotation json_loads (chat_create w (calls st))
         (imencode_b64 w frame) model) = Ok None /\
  exists st',
    step json_loads w model fps t st = (st', Ok tt) /\
    all_annotations st' = all_annotations st /\
    In (Print (MsgFailed t)) (trace st') /\
    loop json_loads w model fps (t :: rest) st
    = loop json_loads w model fps rest st'.
Proof.
  intros Hread Hfail. split.
  - destruct (client_rejects _ _ _ _ Hfail) as [m [Hm _]]. now rewrite Hm.
  - destruct (step_client_failure _ _ _ _ _ _ _ Hread Hfail) as [m [_ Hstep]].
    eexists. split; [exact Hstep |]. repeat split.
    + simpl. apply in_or_app. right. simpl. tauto.
    + simpl loop. now rewrite Hstep.
Qed.

Lemma C4_witness :
  snd (get_frame_annotation decode (chat_create holiday_offline 0)
         (imencode_b64 holiday_offline "frame") llava) = Ok None /\
  exists st',
    step decode holiday_offline llava 25 5 (mkState [] [] 0) = (st', Ok tt) /\
    all_annotations st' = [] /\
    In (Print (MsgFailed 5)) (trace st') /\
    loop decode holiday_offline llava 25 [5; 10] (mkState [] [] 0)
    = loop decode holiday_offline llava 25 [10] st'.
Proof.
  apply (C4_failure_is_skipped decode holiday_offline llava 25 5 [10]
           (mkState [] [] 0) "frame").
  - reflexivity.
  - apply TransportError.
Defined.

Lemma annotated_app (a b : list event) :
  annotated (a ++ b) = annotated a ++ annotated b.
Proof.
  induction a as [| e a IH]; simpl; [reflexivity |].
  destruct e as [m | | | | | | | |]; try exact IH.
  destruct m; simpl; rewrite IH; reflexivity.
Qed.

Lemma written_app (a b : list event) :
  written (a ++ b) = match written a with Some f => Some f | None => written b end.
Proof.
  induction a as [| e a IH]; simpl; [reflexivity |].
  destruct e; try exact IH. reflexivity.
Qed.

Lemma count_probes_app (a b : list event) :
  count_probes (a ++ b) = (count_probes a + count_probes b)%nat.
Proof. unfold count_probes. now rewrite filter_app, length_app. Qed.

(** Work on a frame neither writes the file nor probes the endpoint. *)
Lemma per_frame_quiet (evs : list event) :
  forallb per_frame evs = true -> written evs = None /\ count_probes evs = 0%nat.
Proof.
  induction evs as [| e evs IH]; simpl; [intros _; now split |].
  intros H. apply andb_prop in H. destruct H as [He H].
  destruct (IH H) as [IH1 IH2].
  destruct e; try discriminate He; split; assumption.
Qed.

Lemma subseq_app {A : Type} (a1 l1 a2 l2 : list A) :
  subseq a1 l1 -> subseq a2 l2 -> subseq (a1 ++ a2) (l1 ++ l2).
Proof.
  intros H1 H2. induction H1; simpl; [assumption | |]; now constructor.
Qed.

Lemma subseq_Forall {A : Type} (P : A -> Prop) (l' l : list A) :
  subseq l' l -> Forall P l -> Forall P l'.
Proof.
  intros H. induction H; intros HF; [constructor | |];
    inversion HF; subst; auto.
Qed.

Lemma subseq_sorted {A : Type} (R : A -> A -> Prop) (l' l : list A) :
  subseq l' l -> StronglySorted R l -> StronglySorted R l'.
Proof.
  intros H. induction H; intros HS; [constructor | |];
    inversion HS; subst; auto.
  constructor; [auto | eapply subseq_Forall; eassumption].
Qed.

(** What the client returns has passed the validation, and the client
    itself reports no timestamp as annotated. *)
Lemma client_spec (json_loads : string -> option json)
  (client : string -> string -> api_reply) (image model : string)
  (did : list event) (ann : result (option json)) :
  get_frame_annotation json_loads client image model = (did, ann) ->
  forallb per_frame did = true /\ annotated did = [] /\
  (forall a, ann = Ok (Some a) -> all_in required_keys a = Ok true).
Proof.
  unfold get_frame_annotation.
  destruct (client model image) as [detail | | [content |]].
  - intros H; inversion H; subst. repeat split. discriminate.
  - intros H; inversion H; subst. repeat split. discriminate.
  - destruct (json_loads (strip_fence content)) as [data |].
    + destruct (all_in required_keys data) as [[|] | e] eqn:E;
        intros H; inversion H; subst; repeat split; try discriminate.
      intros a Ha. inversion Ha; subst. exact E.
    + intros H; inversion H; subst. repeat split. discriminate.
  - intros H; inversion H; subst. repeat split. discriminate.
Qed.

(** A flattened annotation has every column, with the timestamp of its
    frame. *)
Lemma flatten_spec (t : Z) (a : json) (d : dict) :
  flatten_annotation t a = Ok d ->
  all_in required_keys a = Ok true ->
  complete d = true /\ dict_get "timestamp" d = Some (JInt t).
Proof.
  destruct a as [| | | | | | d0]; try discriminate.
  intros H Hall.
  rewrite all_in_dict in Hall.
  assert (Hkeys : forallb (fun k => dict_mem k d0) required_keys = true)
    by congruence.
  clear Hall. unfold flatten_annotation in H.
  destruct (join_value ", " (get_or_empty "persons" _)) as [p |]; [| discriminate].
  simpl in H.
  destruct (join_value ", " (get_or_empty "objects" _)) as [o |]; [| discriminate].
  simpl in H. inversion H; subst; clear H.
  split.
  - unfold complete. apply forallb_forall. intros c Hc.
    simpl in Hc. destruct Hc as [<- | Hc].
    + do 2 apply dict_mem_set. unfold dict_mem. now rewrite dict_get_set_same.
    + do 3 apply dict_mem_set.
      rewrite forallb_forall in Hkeys. apply Hkeys. exact Hc.
  - rewrite !dict_get_set_other by discriminate. apply dict_get_set_same.
Qed.

Lemma complete_getitem (d : dict) (c : string) :
  complete d = true -> In c column_order -> exists v, getitem c d = Ok v.
Proof.
  unfold complete, getitem, dict_mem. intros H Hc.
  rewrite forallb_forall in H. specialize (H c Hc).
  destruct (dict_get c d) as [v |]; [now exists v | discriminate].
Qed.

Lemma advance_refl (st : loop_state) : advance st st [] [].
Proof. unfold advance. rewrite !app_nil_r. repeat split. constructor. Qed.

Lemma advance_trans (st1 st2 st3 : loop_state) (e1 e2 : list event) (a1 a2 : list dict) :
  advance st1 st2 e1 a1 -> advance st2 st3 e2 a2 ->
  advance st1 st3 (e1 ++ e2) (a1 ++ a2).
Proof.
  intros (T1 & A1 & P1 & C1 & M1) (T2 & A2 & P2 & C2 & M2).
  unfold advance. repeat split.
  - now rewrite T2, T1, app_assoc.
  - now rewrite A2, A1, app_assoc.
  - now rewrite forallb_app, P1, P2.
  - apply Forall_app. now split.
  - now rewrite annotated_app, !map_app, M1, M2.
Qed.

(** One pass of the loop reports its timestamp as annotated at most
    once, and exactly when it appends an annotation. *)
Lemma step_spec (json_loads : string -> option json) (w : World) (model : string)
  (fps : Q) (t : Z) (st st' : loop_state) (res : result unit) :
  step json_loads w model fps t st = (st', res) ->
  exists evs anns, advance st st' evs anns /\ subseq (annotated evs) [t].
Proof.
  unfold step.
  destruct (cap_read w (frame_id t fps)) as [frame |].
  2:{ intros H; inversion H; subst; clear H.
      exists [CapRead (frame_id t fps)], []. split.
      - unfold advance. simpl. rewrite app_nil_r. repeat split. constructor.
      - simpl. repeat constructor. }
  simpl.
  destruct (get_frame_annotation json_loads (chat_create w (calls st))
              (imencode_b64 w frame) model) as [did ann] eqn:Hc.
  destruct (client_spec _ _ _ _ _ _ Hc) as (Hpf & Hann & Hvalid).
  set (pre := [CapRead (frame_id t fps); PbarSetDescription t] ++ did).
  assert (Hpre : forallb per_frame pre = true)
    by (unfold pre; now rewrite forallb_app, Hpf).
  assert (Hpre0 : annotated pre = [])
    by (unfold pre; now rewrite annotated_app, Hann).
  assert (Hfailed : forall s r,
    (log (mkState (all_annotations st)
            (((trace st ++ [CapRead (frame_id t fps)]) ++ [PbarSetDescription t]) ++ did)
            (S (calls st)))
         [Print (MsgFailed t); PbarUpdate], Ok tt) = (s, r) ->
    exists evs anns, advance st s evs anns /\ subseq (annotated evs) [t]).
  { intros s r H; inversion H; subst; clear H.
    exists (pre ++ [Print (MsgFailed t); PbarUpdate]), []. split.
    - unfold advance, pre. simpl. rewrite app_nil_r, <- !app_assoc. repeat split.
      + simpl. rewrite forallb_app, Hpf. reflexivity.
      + constructor.
      + now rewrite annotated_app, Hann.
    - rewrite annotated_app, Hpre0. simpl. repeat constructor. }
  assert (Hraised : forall s (e : exn) r,
    (mkState (all_annotations st)
       (((trace st ++ [CapRead (frame_id t fps)]) ++ [PbarSetDescription t]) ++ did)
       (S (calls st)), @Raise unit e) = (s, r) ->
    exists evs anns, advance st s evs anns /\ subseq (annotated evs) [t]).
  { intros s e r H; inversion H; subst; clear H.
    exists pre, []. split.
    - unfold advance, pre. simpl. rewrite app_nil_r, <- !app_assoc.
      repeat split; try assumption; try constructor.
      simpl. now rewrite Hann.
    - rewrite Hpre0. repeat constructor. }
  destruct ann as [[a |] | e0]; [| apply Hfailed | apply Hraised].
  destruct (truthy a); [| apply Hfailed].
  destruct (flatten_annotation t a) as [d | e] eqn:Hflat.
  - destruct (flatten_spec _ _ _ Hflat (Hvalid a eq_refl)) as [Hcomplete Hts].
    destruct (complete_getitem d "title" Hcomplete) as [title Htitle];
      [simpl; tauto |].
    destruct (complete_getitem d "caption" Hcomplete) as [caption Hcaption];
      [simpl; tauto |].
    rewrite Htitle, Hcaption.
    intros H; inversion H; subst; clear H.
    exists (pre ++ [Print (MsgAnnotated t title caption); PbarUpdate]), [d]. split.
    + unfold advance, pre. simpl. rewrite <- !app_assoc. repeat split.
      * simpl. rewrite forallb_app, Hpf. reflexivity.
      * now constructor.
      * rewrite annotated_app, Hann. simpl. now rewrite Hts.
    + rewrite annotated_app, Hpre0. simpl. apply subseq_keep, subseq_nil.
  - apply Hraised.
Qed.

(** The loop invariant: the annotations collected are complete, and
    their timestamps are the ones reported as annotated, which are
    among the sample timestamps, in order. *)
Lemma loop_spec (json_loads : string -> option json) (w : World) (model : string)
  (fps : Q) (ts : list Z) (st st' : loop_state) (res : result unit) :
  loop json_loads w model fps ts st = (st', res) ->
  exists evs anns, advance st st' evs anns /\ subseq (annotated evs) ts.
Proof.
  revert st. induction ts as [| t rest IH]; intros st; simpl.
  - intros H; inversion H; subst. exists [], [].
    split; [apply advance_refl | constructor].
  - destruct (step json_loads w model fps t st) as [st1 r1] eqn:Hstep.
    destruct (step_spec _ _ _ _ _ _ _ _ Hstep) as (e1 & a1 & Hadv1 & Hsub1).
    destruct r1 as [[] | e].
    + intros Hloop. destruct (IH _ Hloop) as (e2 & a2 & Hadv2 & Hsub2).
      exists (e1 ++ e2), (a1 ++ a2). split.
      * eapply advance_trans; eassumption.
      * rewrite annotated_app. apply (subseq_app _ [t] _ rest); assumption.
    + intros H; inversion H; subst.
      exists e1, a1. split; [assumption |].
      apply (subseq_app _ [t] [] rest) in Hsub1.
      * now rewrite app_nil_r in Hsub1.
      * clear. induction rest; now constructor.
Qed.

(** ** The table *)

Lemma existsb_eqb_In (c : string) (l : list string) :
  existsb (String.eqb c) l = true <-> In c l.
Proof.
  rewrite existsb_exists. split.
  - intros [x [Hx E]]. apply String.eqb_eq in E. now subst.
  - intros H. exists c. split; [assumption | apply String.eqb_refl].
Qed.

Lemma add_new_seen (k : string) (ks seen : list string) :
  In k seen -> In k (add_new seen ks).
Proof.
  revert seen. induction ks as [| k0 ks IH]; intros seen H; simpl; [assumption |].
  destruct (existsb (String.eqb k0) seen); apply IH; [assumption |].
  apply in_or_app. now left.
Qed.

Lemma add_new_new (k : string) (ks seen : list string) :
  In k ks -> In k (add_new seen ks).
Proof.
  revert seen. induction ks as [| k0 ks IH]; intros seen H; simpl; [contradiction |].
  destruct H as [-> | H].
  - destruct (existsb (String.eqb k) seen) eqn:E.
    + apply add_new_seen. now apply existsb_eqb_In.
    + apply add_new_seen. apply in_or_app. right. now left.
  - destruct (existsb (String.eqb k0) seen); now apply IH.
Qed.

Lemma union_keeps (k : string) (records : list dict) (seen : list string) :
  In k seen ->
  In k (fold_left (fun seen d => add_new seen (dict_keys d)) records seen).
Proof.
  revert seen. induction records as [| d records IH]; intros seen H; simpl;
    [assumption |].
  apply IH. now apply add_new_seen.
Qed.

Lemma dict_mem_keys (c : string) (d : dict) :
  dict_mem c d = true -> In c (dict_keys d).
Proof.
  unfold dict_mem. induction d as [| [k v] d IH]; simpl; [discriminate |].
  destruct (String.eqb k c) eqn:E.
  - apply String.eqb_eq in E. now left.
  - intros H. right. now apply IH.
Qed.

(** The columns of the frame include every key of the first record. *)
Lemma union_keys_first (c : string) (d : dict) (rest : list dict) :
  dict_mem c d = true -> In c (union_keys (d :: rest)).
Proof.
  intros H. unfold union_keys. simpl.
  apply union_keeps, add_new_new. now apply dict_mem_keys.
Qed.

(** Reading a cell by its label gives back what was stored under it. *)
Lemma cell_at_map (f : string -> option json) (c : string) (cols : list string) :
  In c cols -> cell_at c cols (map f cols) = f c.
Proof.
  unfold cell_at. induction cols as [| c0 cols IH]; simpl; [contradiction |].
  intros H. destruct (String.eqb c0 c) eqn:E.
  - apply String.eqb_eq in E. now subst.
  - destruct H as [-> | H]; [now rewrite String.eqb_refl in E |].
    specialize (IH H).
    destruct (col_index c cols) as [i |]; exact IH.
Qed.

(** Building the frame and selecting the six columns leaves, for each
    annotation, its six values in the fixed order, and nothing else. *)
Lemma select_rows (d : dict) (rest : list dict) :
  complete d = true ->
  df_getitem column_order (pd_DataFrame (d :: rest))
  = Ok (mkDF column_order (map row_of (d :: rest))).
Proof.
  intros Hd.
  assert (Hcols : forall c, In c column_order -> In c (union_keys (d :: rest))).
  { intros c Hc. apply union_keys_first.
    unfold complete in Hd. rewrite forallb_forall in Hd. now apply Hd. }
  unfold df_getitem, pd_DataFrame.
  cbn [columns rows].
  rewrite (forallb_In_true _ column_order)
    by (intros c Hc; apply existsb_eqb_In; now apply Hcols).
  f_equal. f_equal. rewrite map_map.
  apply map_ext. intros r. unfold row_of.
  apply map_ext_in. intros c Hc. apply cell_at_map. now apply Hcols.
Qed.

Lemma row_of_length (d : dict) : List.length (row_of d) = 6%nat.
Proof. reflexivity. Qed.

(** ** Runs *)

(** Every run has one of the shapes of [run_shape]. *)
Lemma process_video_shape (json_loads : string -> option json) (w : World)
  (video_path : string) (interval_seconds : Z) (api_url model_name : string) :
  run_shape w video_path interval_seconds api_url
    (process_video json_loads w video_path interval_seconds api_url model_name).
Proof.
  unfold process_video.
  destruct (path_exists w video_path) eqn:Hpath; simpl; [| now constructor].
  destruct (models_list w api_url) as [detail |] eqn:Hprobe; [now constructor |].
  destruct (cap_isOpened w video_path) eqn:Hopen; simpl; [| now constructor].
  assert (Hstarted : started w video_path api_url) by (repeat split; assumption).
  destruct (duration_seconds (py_int (cap_frame_count w)) (cap_fps w))
    as [d | e] eqn:Hd.
  2:{ unfold duration_seconds, py_truediv in Hd.
      destruct (Qeq_bool (cap_fps w) 0) eqn:E; inversion Hd; subst.
      apply RunZeroFps; [assumption | now apply Qeq_bool_iff]. }
  destruct (timestamps d interval_seconds) as [ts | e] eqn:Hts.
  2:{ destruct (Z.eq_dec interval_seconds 0) as [E | E].
      - unfold timestamps in Hts. rewrite E, py_truediv_zero in Hts by reflexivity.
        inversion Hts; subst. now apply RunZeroInterval.
      - rewrite timestamps_ok in Hts by assumption. discriminate Hts. }
  assert (Hi : interval_seconds <> 0).
  { intros ->. unfold timestamps in Hts.
    rewrite py_truediv_zero in Hts by reflexivity. discriminate Hts. }
  destruct (loop json_loads w model_name (cap_fps w) ts _) as [st res] eqn:Hloop.
  destruct (loop_spec _ _ _ _ _ _ _ _ Hloop) as (evs & anns & Hadv & Hsub).
  destruct Hadv as (Htr & Hall & Hpf & Hcomplete & Hmap).
  simpl in Htr, Hall.
  assert (Hshape : forall tail res,
    ending w video_path anns tail res ->
    run_shape w video_path interval_seconds api_url
      (mkRun (([ModelsList api_url; VideoCapture video_path;
                Print (MsgVideoInfo video_path (cap_fps w) d);
                Print (MsgAnalyzing interval_seconds)] ++ evs) ++ tail) res)).
  { intros tail res' Hend. simpl. eapply RunLoop; eassumption. }
  destruct res as [[] | e].
  - unfold finalize. rewrite Htr, Hall.
    destruct anns as [| a anns].
    + rewrite <- app_assoc. apply Hshape. now constructor.
    + rewrite select_rows by (now inversion Hcomplete).
      destruct (with_suffix (Path video_path) ".csv") as [p | e] eqn:Hp.
      * destruct (to_csv w p _) as [e |] eqn:Hw.
        -- apply Hshape. now apply (EndWriteFailed _ _ _ p).
        -- rewrite <- app_assoc. apply Hshape. now constructor.
      * apply Hshape. now constructor.
  - rewrite Htr.
    specialize (Hshape [] (Raise e) (EndRaisedInLoop _ _ _ e)).
    now rewrite app_nil_r in Hshape.
Qed.

Lemma ending_quiet (w : World) (video_path : string) (anns : list dict)
  (tail : list event) (res : result unit) :
  ending w video_path anns tail res ->
  annotated tail = [] /\ count_probes tail = 0%nat /\
  forallb (fun e => negb (is_frame_work e)) tail = true.
Proof. intros H. destruct H; repeat split. Qed.

Lemma sorted_multiples (i : Z) (m a : nat) :
  0 < i ->
  StronglySorted Z.lt (map (fun k => Z.of_nat k * i) (seq a m)).
Proof.
  intros Hi. revert a. induction m as [| m IH]; intros a; simpl; constructor.
  - apply IH.
  - apply Forall_forall. intros t Ht.
    apply in_map_iff in Ht. destruct Ht as [k [<- Hk]].
    apply in_seq in Hk. nia.
Qed.

(** With a positive interval the sample timestamps increase strictly. *)
Lemma timestamps_sorted (d : Q) (i : Z) (ts : list Z) :
  0 < i -> timestamps d i = Ok ts -> StronglySorted Z.lt ts.
Proof.
  intros Hi H. rewrite timestamps_ok in H by lia. inversion H; subst.
  unfold py_range. rewrite map_map. now apply sorted_multiples.
Qed.

(** What a run that entered the loop reports and writes. *)
Lemma loop_run_facts (w : World) (video_path : string) (anns : list dict)
  (head evs tail : list event) (res : result unit) :
  ending w video_path anns tail res ->
  forallb per_frame evs = true ->
  annotated head = [] -> written head = None ->
  annotated (head ++ evs ++ tail) = annotated evs /\
  written (head ++ evs ++ tail) = written tail.
Proof.
  intros Hend Hpf Hh1 Hh2.
  destruct (per_frame_quiet _ Hpf) as [Hw _].
  destruct (ending_quiet _ _ _ _ _ Hend) as [Ha _].
  rewrite !annotated_app, !written_app, Hh1, Hh2, Hw, Ha.
  now rewrite app_nil_r.
Qed.

Lemma map_eq_length {A B C : Type} (f : A -> C) (g : B -> C) (l : list A) (l' : list B) :
  map f l = map g l' -> List.length l = List.length l'.
Proof. intros H. apply (f_equal (@List.length C)) in H. now rewrite !length_map in H. Qed.

(** The first cell of each row is the timestamp of its annotation. *)
Lemma timestamp_cells (anns : list dict) (ts : list Z) :
  map (dict_get "timestamp") anns = map (fun t => Some (JInt t)) ts ->
  map (fun a => nth 0 (row_of a) None) anns = map (fun t => Some (JInt t)) ts.
Proof.
  revert ts. induction anns as [| a anns IH]; intros [| t ts]; simpl;
    try discriminate; [reflexivity |].
  intros H. injection H as H1 H2. f_equal; [| now apply IH].
  unfold cell_of. now rewrite H1.
Qed.

(** C2 (as amended): a run that returns without an exception and in
    which N >= 1 annotations succeed writes a file; the file written
    by a run has the six columns in the fixed order as its header and
    exactly N data rows of six cells, one per timestamp reported as
    annotated and in that order, which for a positive interval is
    strictly ascending. *)
Theorem C2_output_table (json_loads : string -> option json) (w : World)
  (video_path : string) (interval_seconds : Z) (api_url model_name : string) :
  let r := process_video json_loads w video_path interval_seconds api_url model_name in
  let N := List.length (annotated (events r)) in
  (outcome r = Ok tt -> (1 <= N)%nat ->
   exists p df, written (events r) = Some (p, df)) /\
  (forall p df, written (events r) = Some (p, df) ->
     (1 <= N)%nat /\
     columns df = column_order /\
     List.length (rows df) = N /\
     Forall (fun row => List.length row = 6%nat) (rows df) /\
     map (fun row => nth 0 row None) (rows df)
     = map (fun t => Some (JInt t)) (annotated (events r)) /\
     (0 < interval_seconds -> StronglySorted Z.lt (annotated (events r)))).
Proof.
  intros r N. subst N.
  pose proof (process_video_shape json_loads w video_path interval_seconds
                api_url model_name) as Hshape.
  fold r in Hshape.
  destruct Hshape as [Hp | detail Hp Hm | Hp Hm Ho | Hst Hf | d Hst Hd Hi0
                      | d ts evs tail anns res Hst Hd Hi Hts Hpf Hsub Hc Hmap Hend];
    try (split; [intros _ HN; simpl in HN; lia | intros p df Hw; discriminate Hw]).
  cbn [events outcome].
  destruct (loop_run_facts w video_path anns
              [ModelsList api_url; VideoCapture video_path;
               Print (MsgVideoInfo video_path (cap_fps w) d);
               Print (MsgAnalyzing interval_seconds)] evs tail res Hend Hpf
              eq_refl eq_refl) as [Hann Hwr].
  simpl app in Hann, Hwr. rewrite Hann, Hwr.
  pose proof (map_eq_length _ _ _ _ Hmap) as Hlen.
  split.
  + intros Hok HN.
    destruct Hend as [e | Hnil | e Hne He | p e Hne Hp Hcsv | p Hne Hp Hcsv].
    * discriminate Hok.
    * subst anns. simpl in Hlen. lia.
    * discriminate Hok.
    * discriminate Hok.
    * eexists _, _. reflexivity.
  + intros p df Hw.
    destruct Hend as [e | Hnil | e Hne He | p' e Hne Hp Hcsv | p' Hne Hp Hcsv]; try discriminate Hw.
    simpl in Hw. inversion Hw; subst; clear Hw. cbn [columns rows].
    rewrite length_map. repeat split.
    * destruct anns; [contradiction | simpl in Hlen; lia].
    * exact Hlen.
    * apply Forall_forall. intros row Hrow.
      apply in_map_iff in Hrow. destruct Hrow as [a [<- _]]. reflexivity.
    * rewrite map_map. now apply timestamp_cells.
    * intros Hpos. eapply subseq_sorted; [exact Hsub |].
      eapply timestamps_sorted; eassumption.
Qed.

Lemma C2_witness :
  let r := process_video decode holiday "videos/holiday.mp4" 5 localhost llava in
  exists p df,
    written (events r) = Some (p, df) /\
    columns df = column_order /\
    List.length (rows df) = 3%nat /\
    map (fun row => nth 0 row None) (rows df)
    = [Some (JInt 0); Some (JInt 5); Some (JInt 10)] /\
    StronglySorted Z.lt (annotated (events r)).
Proof.
  intros r.
  destruct (C2_output_table decode holiday "videos/holiday.mp4" 5 localhost llava)
    as [Hfile Htable].
  assert (Hok : outcome r = Ok tt) by (vm_compute; reflexivity).
  assert (HN : (1 <= List.length (annotated (events r)))%nat) by (vm_compute; lia).
  destruct (Hfile Hok HN) as (p & df & Hw).
  destruct (Htable p df Hw) as (_ & Hcols & Hlen & _ & Hts & Hsorted).
  exists p, df. repeat split.
  - exact Hw.
  - exact Hcols.
  - rewrite Hlen. vm_compute. reflexivity.
  - rewrite Hts. vm_compute. reflexivity.
  - apply Hsorted. lia.
Defined.

(** Annotations can succeed and no file be written.  On the first
    video the model answers the second request with a list: the first
    frame is annotated, then the item assignment raises a TypeError and
    the run ends there.  On the second video all three frames are
    annotated, but writing the table raises, and no file is left. *)
Lemma C2_counterexample :
  let r := process_video decode holiday_spoiled "videos/holiday.mp4" 5 localhost llava in
  let r' := process_video decode holiday_readonly "videos/holiday.mp4" 5 localhost llava in
  (annotated (events r) = [0] /\ outcome r = Raise TypeError /\
   written (events r) = None) /\
  (annotated (events r') = [0; 5; 10] /\ outcome r' = Raise OSError /\
   written (events r') = None).
Proof. vm_compute. repeat split. Qed.

(** The order of the rows is that of the sample timestamps: with a
    negative interval on a container that reports a negative frame
    count, the rows are written in descending order of timestamp. *)
Example negative_interval_descending_rows :
  exists p df,
    written (events (process_video decode holiday_backwards "videos/holiday.mp4" (-5)
                       localhost llava)) = Some (p, df) /\
    map (fun row => nth 0 row None) (rows df)
    = [Some (JInt 0); Some (JInt (-5)); Some (JInt (-10))].
Proof. eexists _, _. split; vm_compute; reflexivity. Qed.

(** C5: a run in which no annotation succeeds writes no file; when
    such a run got through the loop, it releases the video, prints that
    no annotations were generated and returns, with nothing after. *)
Theorem C5_no_annotations_no_file (json_loads : string -> option json) (w : World)
  (video_path : string) (interval_seconds : Z) (api_url model_name : string) :
  let r := process_video json_loads w video_path interval_seconds api_url model_name in
  annotated (events r) = [] ->
  written (events r) = None /\
  (started w video_path api_url -> outcome r = Ok tt ->
   exists evs, events r = evs ++ [CapRelease; Print MsgNoAnnotations] /\
               written evs = None).
Proof.
  intros r.
  pose proof (process_video_shape json_loads w video_path interval_seconds
                api_url model_name) as Hshape.
  fold r in Hshape.
  destruct Hshape as [Hp | detail Hp Hm | Hp Hm Ho | Hst Hf | d Hst Hd Hi0
                      | d ts evs tail anns res Hst Hd Hi Hts Hpf Hsub Hc Hmap Hend];
    cbn [events outcome]; intros Hnone.
  - split; [reflexivity |]. intros (Hp' & _) _. congruence.
  - split; [reflexivity |]. intros (_ & Hm' & _) _. congruence.
  - split; [reflexivity |]. intros (_ & _ & Ho') _. congruence.
  - split; [reflexivity |]. intros _ H. discriminate H.
  - split; [reflexivity |]. intros _ H. discriminate H.
  - destruct (loop_run_facts w video_path anns
                [ModelsList api_url; VideoCapture video_path;
                 Print (MsgVideoInfo video_path (cap_fps w) d);
                 Print (MsgAnalyzing interval_seconds)] evs tail res Hend Hpf
                eq_refl eq_refl) as [Hann Hwr].
    simpl app in Hann, Hwr. rewrite Hann in Hnone. rewrite Hwr.
    rewrite Hnone in Hmap. simpl in Hmap. apply map_eq_nil in Hmap. subst anns.
    destruct (per_frame_quiet _ Hpf) as [Hquiet _].
    destruct Hend as [e | Hnil | e Hne He | p e Hne Hp Hcsv | p Hne Hp Hcsv]; try contradiction.
    + split; [reflexivity |]. intros _ H. discriminate H.
    + split; [reflexivity |]. intros _ _.
      exists (ModelsList api_url :: VideoCapture video_path ::
              Print (MsgVideoInfo video_path (cap_fps w) d) ::
              Print (MsgAnalyzing interval_seconds) :: evs).
      split; [reflexivity | exact Hquiet].
Qed.

Lemma C5_witness :
  let r := process_video decode holiday_offline "videos/holiday.mp4" 5 localhost llava in
  written (events r) = None /\
  exists evs, events r = evs ++ [CapRelease; Print MsgNoAnnotations] /\
              written evs = None.
Proof.
  intros r.
  destruct (C5_no_annotations_no_file decode holiday_offline "videos/holiday.mp4" 5
              localhost llava) as [Hnofile Hreport].
  - vm_compute. reflexivity.
  - split; [exact Hnofile |].
    apply Hreport.
    + repeat split.
    + vm_compute. reflexivity.
Defined.

(** C9: the two divisions are unguarded.  Once the video is opened, a
    frame rate of 0 or an interval of 0 makes [process_video] end with
    an uncaught ZeroDivisionError: no failure is reported, no frame is
    read, no file is written. *)
Theorem C9_unguarded_divisions (json_loads : string -> option json) (w : World)
  (video_path : string) (interval_seconds : Z) (api_url model_name : string) :
  started w video_path api_url ->
  (cap_fps w == 0)%Q \/ interval_seconds = 0 ->
  let r := process_video json_loads w video_path interval_seconds api_url model_name in
  outcome r = Raise ZeroDivisionError /\
  existsb reports_failure (events r) = false /\
  existsb is_frame_work (events r) = false /\
  written (events r) = None.
Proof.
  intros Hst Hzero r.
  pose proof (process_video_shape json_loads w video_path interval_seconds
                api_url model_name) as Hshape.
  fold r in Hshape. destruct Hst as (Hp' & Hm' & Ho').
  destruct Hshape as [Hp | detail Hp Hm | Hp Hm Ho | Hst Hf | d Hst Hd Hi0
                      | d ts evs tail anns res Hst Hd Hi Hts Hpf Hsub Hc Hmap Hend];
    try congruence; cbn [events outcome].
  - repeat split.
  - repeat split.
  - exfalso. destruct Hzero as [Hfps | Hint]; [| contradiction].
    unfold duration_seconds in Hd. rewrite py_truediv_zero in Hd by assumption.
    discriminate Hd.
Qed.

Lemma C9_witness :
  let r := process_video decode holiday_still "videos/holiday.mp4" 5 localhost llava in
  outcome r = Raise ZeroDivisionError /\
  existsb reports_failure (events r) = false /\
  existsb is_frame_work (events r) = false /\
  written (events r) = None.
Proof.
  apply (C9_unguarded_divisions decode holiday_still "videos/holiday.mp4" 5
           localhost llava).
  - repeat split.
  - left. reflexivity.
Defined.

(** The same with an interval of 0 on a sound video. *)
Example zero_interval_raises :
  outcome (process_video decode holiday "videos/holiday.mp4" 0 localhost llava)
  = Raise ZeroDivisionError.
Proof. reflexivity. Qed.

(** ** Order of the start-up steps *)

Lemma probe_before (url : string) (rest pre post : list event) (e : event) :
  count_probes rest = 0%nat ->
  ModelsList url :: rest = pre ++ e :: post ->
  is_frame_work e = true ->
  count_probes pre = 1%nat.
Proof.
  intros Hrest Hsplit He.
  destruct pre as [| x pre]; simpl in Hsplit; inversion Hsplit; subst.
  - discriminate He.
  - rewrite count_probes_app in Hrest.
    unfold count_probes in *. simpl. lia.
Qed.

(** C7 (as amended): both fatal conditions end the run without an
    output file.  The endpoint is probed at most once in a run, and
    whenever a frame is read or sent to the model the probe has been
    made exactly once before; it is made exactly once when the video
    path exists, and not at all when it does not, because the path is
    checked first. *)
Theorem C7_fatal_and_probe (json_loads : string -> option json) (w : World)
  (video_path : string) (interval_seconds : Z) (api_url model_name : string) :
  let r := process_video json_loads w video_path interval_seconds api_url model_name in
  (path_exists w video_path = false \/ cap_isOpened w video_path = false \/
   models_list w api_url <> None ->
   written (events r) = None /\ existsb is_frame_work (events r) = false) /\
  (count_probes (events r) <= 1)%nat /\
  (path_exists w video_path = true -> count_probes (events r) = 1%nat) /\
  (path_exists w video_path = false -> count_probes (events r) = 0%nat) /\
  (forall pre e post,
     events r = pre ++ e :: post -> is_frame_work e = true ->
     count_probes pre = 1%nat).
Proof.
  intros r.
  pose proof (process_video_shape json_loads w video_path interval_seconds
                api_url model_name) as Hshape.
  fold r in Hshape.
  assert (Hsplit : forall url rest,
            events r = ModelsList url :: rest -> count_probes rest = 0%nat ->
            forall pre e post,
              events r = pre ++ e :: post -> is_frame_work e = true ->
              count_probes pre = 1%nat).
  { intros url rest Hev Hrest pre e post Hsp He.
    rewrite Hev in Hsp. eapply probe_before; eassumption. }
  destruct Hshape as [Hp | detail Hp Hm | Hp Hm Ho | Hst Hf | d Hst Hd Hi0
                      | d ts evs tail anns res Hst Hd Hi Hts Hpf Hsub Hc Hmap Hend];
    cbn [events outcome] in *.
  - repeat split; try reflexivity; try congruence;
      try (unfold count_probes; simpl; lia).
    intros pre e post Hsp He.
    destruct pre as [| x [| y pre]]; inversion Hsp; subst. discriminate He.
  - repeat split; try reflexivity; try congruence;
      try (unfold count_probes; simpl; lia).
    eapply Hsplit; reflexivity.
  - repeat split; try reflexivity; try congruence;
      try (unfold count_probes; simpl; lia).
    eapply Hsplit; reflexivity.
  - destruct Hst as (Hp & Hm & Ho).
    repeat split; try reflexivity; try congruence;
      try (match goal with H : _ \/ _ |- _ => destruct H as [H | [H | H]]; congruence end);
      try (unfold count_probes; simpl; lia).
    eapply Hsplit; reflexivity.
  - destruct Hst as (Hp & Hm & Ho).
    repeat split; try reflexivity; try congruence;
      try (match goal with H : _ \/ _ |- _ => destruct H as [H | [H | H]]; congruence end);
      try (unfold count_probes; simpl; lia).
    eapply Hsplit; reflexivity.
  - destruct Hst as (Hp & Hm & Ho).
    destruct (per_frame_quiet _ Hpf) as [_ Hq].
    destruct (ending_quiet _ _ _ _ _ Hend) as (_ & Hq' & _).
    assert (Hcount : count_probes
                       (VideoCapture video_path ::
                        Print (MsgVideoInfo video_path (cap_fps w) d) ::
                        Print (MsgAnalyzing interval_seconds) :: evs ++ tail) = 0%nat).
    { change (count_probes (VideoCapture video_path ::
                Print (MsgVideoInfo video_path (cap_fps w) d) ::
                Print (MsgAnalyzing interval_seconds) :: evs ++ tail))
        with (count_probes (evs ++ tail)).
      rewrite count_probes_app. lia. }
    assert (Hone : count_probes
                     (ModelsList api_url :: VideoCapture video_path ::
                      Print (MsgVideoInfo video_path (cap_fps w) d) ::
                      Print (MsgAnalyzing interval_seconds) :: evs ++ tail) = 1%nat).
    { change (count_probes (ModelsList api_url :: ?l)) with (S (count_probes l)).
      now rewrite Hcount. }
    repeat split; try congruence;
      try (match goal with H : _ \/ _ |- _ => destruct H as [H | [H | H]]; congruence end); try (rewrite Hone; lia).
    eapply Hsplit; [reflexivity | exact Hcount].
Qed.

Lemma C7_witness :
  count_probes
    (events (process_video decode holiday "videos/holiday.mp4" 5 localhost llava))
  = 1%nat.
Proof.
  destruct (C7_fatal_and_probe decode holiday "videos/holiday.mp4" 5 localhost llava)
    as (_ & _ & Hone & _).
  apply Hone. reflexivity.
Defined.

(** On a path that does not exist the run stops at the path check:
    the endpoint is not probed at all, so not "exactly once". *)
Lemma C7_counterexample :
  let r := process_video decode holiday "videos/missing.mp4" 5 localhost llava in
  path_exists holiday "videos/missing.mp4" = false /\
  events r = [Print (MsgVideoNotFound "videos/missing.mp4")] /\
  count_probes (events r) <> 1%nat.
Proof. repeat split. discriminate. Qed.

(** ** Warnings *)

(** A failure of the client is reported by the driver with the
    timestamp of the frame. *)
Lemma client_failure_is_warned (json_loads : string -> option json) (w : World)
  (model : string) (fps : Q) (t : Z) (st st' : loop_state) (frame : string)
  (res : result unit) :
  cap_read w (frame_id t fps) = Some frame ->
  frame_failure json_loads (chat_create w (calls st) model (imencode_b64 w frame)) ->
  step json_loads w model fps t st = (st', res) ->
  exists evs, trace st' = trace st ++ evs /\ warned evs = [t].
Proof.
  intros Hread Hfail Hstep.
  destruct (step_client_failure _ _ _ _ _ _ _ Hread Hfail) as [m [Hw Hs]].
  rewrite Hs in Hstep. inversion Hstep; subst; clear Hstep. cbn [trace].
  eexists. split; [reflexivity |].
  destruct (client_rejects _ _ _ _ Hfail) as [m' [Hm' [_ Hnone]]].
  assert (Hm : message_timestamp m = None).
  { unfold step in Hs. rewrite Hread in Hs. simpl in Hs. rewrite Hm' in Hs.
    unfold log in Hs. simpl in Hs. rewrite <- !app_assoc in Hs. simpl in Hs.
    inversion Hs as [Heq]. apply app_inv_head in Heq.
    inversion Heq; subst. exact Hnone. }
  simpl. rewrite Hm. destruct (is_warning m); reflexivity.
Qed.

(** A frame that does not decode is passed over without a word: the
    only trace of it is the attempt to read. *)
Lemma decode_failure_is_silent (json_loads : string -> option json) (w : World)
  (model : string) (fps : Q) (t : Z) (st st' : loop_state) (res : result unit) :
  cap_read w (frame_id t fps) = None ->
  step json_loads w model fps t st = (st', res) ->
  trace st' = trace st ++ [CapRead (frame_id t fps)] /\ res = Ok tt.
Proof.
  intros Hread Hstep. rewrite step_decode_failure in Hstep by assumption.
  inversion Hstep; subst. now split.
Qed.

(** C6, on the video whose frame at second 5 does not decode: the run
    goes on and annotates seconds 0 and 10, but nothing that is printed
    names second 5, and no warning is printed at all. *)
Theorem C6_decode_failure_unreported :
  let r := process_video decode holiday_damaged "videos/holiday.mp4" 5 localhost llava in
  cap_read holiday_damaged (frame_id 5 (cap_fps holiday_damaged)) = None /\
  In (CapRead (frame_id 5 (cap_fps holiday_damaged))) (events r) /\
  existsb (names_timestamp 5) (events r) = false /\
  warned (events r) = [] /\
  annotated (events r) = [0; 10] /\
  outcome r = Ok tt.
Proof.
  vm_compute. repeat split. do 9 right. now left.
Qed.

(** ** The output path *)

Lemma substring_length (s : string) (i n : nat) :
  (i + n <= String.length s)%nat -> String.length (substring i n s) = n.
Proof.
  revert i n. induction s as [| c s IH]; intros i n H; simpl in H.
  - assert (i = 0 /\ n = 0)%nat as [-> ->] by lia. reflexivity.
  - destruct i as [| i]; simpl.
    + destruct n as [| n]; simpl; [reflexivity |].
      rewrite IH by lia. reflexivity.
    + apply IH. lia.
Qed.

Lemma substring_app_drop (a b : string) (n : nat) :
  substring (String.length a) n (a ++ b)%string = substring 0 n b.
Proof. induction a as [| c a IH]; simpl; [reflexivity | exact IH]. Qed.

Lemma rfind_app (c : ascii) (a b : string) :
  rfind c (a ++ b)%string
  = match rfind c b with
    | Some j => Some (String.length a + j)%nat
    | None => rfind c a
    end.
Proof.
  induction a as [| c0 a IH]; simpl.
  - now destruct (rfind c b).
  - rewrite IH. destruct (rfind c b); reflexivity.
Qed.

Lemma str_nonempty_length (s : string) : s <> ""%string -> (0 < String.length s)%nat.
Proof. destruct s; [congruence | simpl; lia]. Qed.

(** A name made of a non-empty stem and [".csv"] splits back into
    these two. *)
Lemma stem_suffix_csv (s : string) :
  s <> ""%string ->
  name_stem (s ++ ".csv") = s /\ name_suffix (s ++ ".csv") = ".csv"%string.
Proof.
  intros Hs. apply str_nonempty_length in Hs.
  assert (Hdot : suffix_dot (s ++ ".csv") = Some (String.length s)).
  { unfold suffix_dot. rewrite rfind_app. simpl rfind. cbv iota.
    rewrite Nat.add_0_r, str_length_app. simpl String.length.
    replace (Nat.ltb 0 (String.length s)) with true
      by (symmetry; apply Nat.ltb_lt; lia).
    replace (Nat.ltb (String.length s) (String.length s + 4 - 1)) with true
      by (symmetry; apply Nat.ltb_lt; lia).
    reflexivity. }
  unfold name_stem, name_suffix. rewrite Hdot. split.
  - apply substring_app_exact.
  - rewrite substring_app_drop, str_length_app.
    replace (String.length s + String.length ".csv" - String.length s)%nat
      with 4%nat by (simpl; lia).
    reflexivity.
Qed.

(** What [with_suffix] keeps of a name is its stem, and the stem of a
    non-empty name is not empty. *)
Lemma kept_is_stem (nm : string) :
  nm <> ""%string ->
  (if String.eqb (name_suffix nm) "" then nm
   else substring 0 (String.length nm - String.length (name_suffix nm)) nm)
  = name_stem nm /\ name_stem nm <> ""%string.
Proof.
  intros Hnm. unfold name_suffix, name_stem, suffix_dot.
  destruct (rfind "."%char nm) as [i |]; [| now split].
  destruct (Nat.ltb 0 i) eqn:H0; simpl; [| now split].
  destruct (Nat.ltb i (String.length nm - 1)) eqn:H1; simpl; [| now split].
  apply Nat.ltb_lt in H0, H1.
  assert (Hlen : String.length (substring i (String.length nm - i) nm)
                 = (String.length nm - i)%nat) by (apply substring_length; lia).
  assert (Hstem : String.length (substring 0 i nm) = i)
    by (apply substring_length; lia).
  destruct (String.eqb_spec (substring i (String.length nm - i) nm) "") as [E | _].
  - rewrite E in Hlen. simpl in Hlen. lia.
  - rewrite Hlen. replace (String.length nm - (String.length nm - i))%nat with i by lia.
    split; [reflexivity |]. intros E. rewrite E in Hstem. simpl in Hstem. lia.
Qed.

Lemma with_suffix_csv (P p : PurePath) :
  with_suffix P ".csv" = Ok p ->
  name P <> ""%string /\
  p = mkPath (root P) (removelast (parts P) ++ [(name_stem (name P) ++ ".csv")%string]).
Proof.
  unfold with_suffix.
  change (str_contains "/" ".csv") with false.
  change (negb (String.eqb ".csv" "") && negb (startswith "." ".csv")
          || String.eqb ".csv" ".")%bool with false.
  cbv iota.
  destruct (String.eqb_spec (name P) "") as [E | Hne]; [discriminate |].
  intros H. inversion H; subst; clear H. split; [assumption |].
  destruct (kept_is_stem (name P) Hne) as [Hkept _].
  destruct (String.eqb (name_suffix (name P)) "");
    [now rewrite <- Hkept | now rewrite Hkept].
Qed.

(** C8: the file of every run that writes one is at
    [Path(video_path).with_suffix(".csv")]: same root and directory as
    the video, same stem, and the extension [".csv"]. *)
Theorem C8_output_path (json_loads : string -> option json) (w : World)
  (video_path : string) (interval_seconds : Z) (api_url model_name : string)
  (p : PurePath) (df : DataFrame) :
  written (events (process_video json_loads w video_path interval_seconds
                     api_url model_name)) = Some (p, df) ->
  with_suffix (Path video_path) ".csv" = Ok p /\
  parent p = parent (Path video_path) /\
  stem p = stem (Path video_path) /\
  suffix p = ".csv"%string /\
  name p = (stem (Path video_path) ++ ".csv")%string.
Proof.
  pose proof (process_video_shape json_loads w video_path interval_seconds
                api_url model_name) as Hshape.
  destruct Hshape as [Hp | detail Hp Hm | Hp Hm Ho | Hst Hf | d Hst Hd Hi0
                      | d ts evs tail anns res Hst Hd Hi Hts Hpf Hsub Hc Hmap Hend];
    cbn [events]; try (intros Hw; discriminate Hw).
  destruct (loop_run_facts w video_path anns
              [ModelsList api_url; VideoCapture video_path;
               Print (MsgVideoInfo video_path (cap_fps w) d);
               Print (MsgAnalyzing interval_seconds)] evs tail res Hend Hpf
              eq_refl eq_refl) as [_ Hwr].
  simpl app in Hwr. rewrite Hwr.
  destruct Hend as [e | Hnil | e Hne He | p' e Hne Hp Hcsv | p' Hne Hp Hcsv]; intros Hw;
    try discriminate Hw.
  simpl in Hw. inversion Hw; subst; clear Hw.
  split; [exact Hp |].
  destruct (with_suffix_csv _ _ Hp) as [Hname ->].
  destruct (kept_is_stem _ Hname) as [_ Hstem].
  destruct (stem_suffix_csv _ Hstem) as [Hs1 Hs2].
  unfold parent, stem, suffix, name. cbn [root parts].
  rewrite last_last, removelast_last.
  repeat split; assumption.
Qed.

Lemma C8_witness :
  let r := process_video decode holiday "videos/holiday.mp4" 5 localhost llava in
  exists p df,
    written (events r) = Some (p, df) /\
    p = mkPath "" ["videos"; "holiday.csv"]%string /\
    parent p = parent (Path "videos/holiday.mp4") /\
    stem p = stem (Path "videos/holiday.mp4") /\
    suffix p = ".csv"%string.
Proof.
  intros r. destruct (written (events r)) as [[p df] |] eqn:Hw.
  - destruct (C8_output_path decode holiday "videos/holiday.mp4" 5 localhost llava
                p df Hw) as (Hp & Hparent & Hstem & Hsuffix & _).
    exists p, df. repeat split; try assumption.
    vm_compute in Hp. now inversion Hp.
  - vm_compute in Hw. discriminate Hw.
Defined.

(** * Further properties of the script *)

(** ** The sampler, lines 112-131 *)

Lemma sample_timestamps_floor (total_frames : Z) (fps : Q) (i : Z) (D : Q) :
  duration_seconds total_frames fps = Ok D -> 0 < i ->
  (D + inject_Z i <= inject_Z (2 ^ 53))%Q ->
  sample_timestamps total_frames fps i
  = Ok (map (fun k => k * i) (py_range (Qfloor (D / inject_Z i)))).
Proof.
  intros HD Hi Hr. unfold sample_timestamps. rewrite HD. simpl.
  apply timestamps_floor; [eapply duration_is_double; eassumption | assumption ..].
Qed.

Lemma Qfloor_pos_iff (x : Q) : 0 < Qfloor x <-> (1 <= x)%Q.
Proof.
  split; intros H.
  - eapply Qle_trans; [| apply Qfloor_le].
    change 1%Q with (inject_Z 1). rewrite <- Zle_Qle. lia.
  - change 1%Q with (inject_Z 1) in H.
    apply Qfloor_resp_le in H. rewrite Qfloor_Z in H. lia.
Qed.

Lemma Qdiv_ge_1 (d : Q) (i : Z) :
  0 < i -> ((1 <= d / inject_Z i)%Q <-> (inject_Z i <= d)%Q).
Proof.
  intros Hi.
  assert (Hq : (0 < inject_Z i)%Q) by (unfold Qlt; simpl; lia).
  split; intros H.
  - apply (Qmult_le_compat_r _ _ (inject_Z i)) in H; [| now apply Qlt_le_weak].
    assert (E : (d / inject_Z i * inject_Z i == d)%Q).
    { field. intros E. rewrite E in Hq. discriminate. }
    now rewrite E, Qmult_1_l in H.
  - apply Qle_shift_div_l; [assumption | now rewrite Qmult_1_l].
Qed.

(** A video whose duration, as the program computes it, is shorter than
    one interval is not sampled at all, not even at second 0; any
    longer one is.  (Durations and intervals below 2^53.) *)
Theorem short_video_no_samples (total_frames : Z) (fps : Q) (interval_seconds : Z)
  (D : Q) :
  duration_seconds total_frames fps = Ok D -> 0 < interval_seconds ->
  (D + inject_Z interval_seconds <= inject_Z (2 ^ 53))%Q ->
  (sample_timestamps total_frames fps interval_seconds = Ok [] <->
   (D < inject_Z interval_seconds)%Q).
Proof.
  intros HD Hi Hr.
  rewrite (sample_timestamps_floor _ _ _ D) by assumption.
  set (n := Qfloor (D / inject_Z interval_seconds)).
  assert (Hn : 0 < n <-> (inject_Z interval_seconds <= D)%Q).
  { unfold n. rewrite Qfloor_pos_iff. now apply Qdiv_ge_1. }
  split.
  - intros H. apply Qnot_le_lt. intros Hle. apply Hn in Hle.
    inversion H as [Hnil]. apply map_eq_nil in Hnil.
    unfold py_range in Hnil. apply map_eq_nil in Hnil.
    destruct (Z.to_nat n) eqn:E; [lia | discriminate Hnil].
  - intros H. apply Qlt_not_le in H.
    assert (n <= 0) by (destruct (Z_lt_le_dec 0 n) as [Hp | Hp];
                         [apply Hn in Hp; contradiction | assumption]).
    unfold py_range. replace (Z.to_nat n) with 0%nat by lia. reflexivity.
Qed.

(** 50 frames at the double nearest to 50/3 frames per second: the
    duration is 3.0, not less than an interval of 3, and second 0 is
    sampled. *)
Lemma short_video_no_samples_witness :
  sample_timestamps 50 (round64 (50 # 3)) 3 = Ok [0] /\
  (sample_timestamps 50 (round64 (50 # 3)) 3 = Ok [] <-> (3 < inject_Z 3)%Q).
Proof.
  split; [vm_compute; reflexivity |].
  apply (short_video_no_samples 50 (round64 (50 # 3)) 3 3);
    [vm_compute; reflexivity | lia | vm_compute; discriminate].
Defined.

(** The first sample is at second 0 and the last one lies at least one
    interval, and less than two, before the end of the video as the
    program measures it: that stretch is never looked at. *)
Theorem unsampled_tail (total_frames : Z) (fps : Q) (interval_seconds : Z)
  (D : Q) (ts : list Z) :
  duration_seconds total_frames fps = Ok D -> 0 < interval_seconds ->
  (D + inject_Z interval_seconds <= inject_Z (2 ^ 53))%Q ->
  sample_timestamps total_frames fps interval_seconds = Ok ts ->
  ts <> [] ->
  hd 0 ts = 0 /\
  (inject_Z (last ts 0%Z + interval_seconds) <= D)%Q /\
  (D < inject_Z (last ts 0%Z + 2 * interval_seconds))%Q.
Proof.
  intros HDur Hi Hr Hts Hne.
  rewrite (sample_timestamps_floor _ _ _ D) in Hts by assumption.
  set (n := Qfloor (D / inject_Z interval_seconds)) in *.
  inversion Hts as [Heq]; clear Hts.
  assert (Hq : (0 < inject_Z interval_seconds)%Q) by (unfold Qlt; simpl; lia).
  assert (HD : (D / inject_Z interval_seconds * inject_Z interval_seconds == D)%Q).
  { field. intros E. rewrite E in Hq. discriminate. }
  unfold py_range in *. destruct (Z.to_nat n) as [| m] eqn:Em.
  { subst ts. now elim Hne. }
  assert (Hn : n = Z.of_nat m + 1) by lia.
  subst ts.
  assert (Hlast : last (map (fun k => k * interval_seconds)
                          (map Z.of_nat (seq 0 (S m)))) 0%Z
                  = Z.of_nat m * interval_seconds).
  { rewrite seq_S, !map_app. simpl. now rewrite last_last. }
  split; [| split].
  - reflexivity.
  - rewrite Hlast.
    replace (Z.of_nat m * interval_seconds + interval_seconds)
      with (n * interval_seconds) by lia.
    rewrite inject_Z_mult, <- HD.
    apply Qmult_le_compat_r; [apply Qfloor_le | now apply Qlt_le_weak].
  - rewrite Hlast.
    replace (Z.of_nat m * interval_seconds + 2 * interval_seconds)
      with ((n + 1) * interval_seconds) by lia.
    rewrite inject_Z_mult. rewrite <- HD at 1.
    apply Qmult_lt_compat_r; [assumption | apply Qlt_floor].
Qed.

Lemma unsampled_tail_witness :
  hd 0 [0; 5] = 0 /\
  (inject_Z (last [0; 5]%Z 0%Z + 5) <= 12)%Q /\
  (12 < inject_Z (last [0; 5]%Z 0%Z + 2 * 5))%Q.
Proof.
  apply (unsampled_tail 300 25 5 12 [0; 5]);
    [vm_compute; reflexivity | lia | vm_compute; discriminate
     | vm_compute; reflexivity | discriminate].
Defined.




(** ** The fence, lines 64-65 *)

Lemma substring_split (s : string) (n : nat) :
  (n <= String.length s)%nat ->
  s = (substring 0 n s ++ substring n (String.length s - n) s)%string.
Proof.
  revert n. induction s as [| c s IH]; intros n H; simpl in H.
  - replace n with 0%nat by lia. reflexivity.
  - destruct n as [| n]; simpl.
    + f_equal. clear. induction s as [| c' s IH]; simpl; [reflexivity |].
      now rewrite <- IH.
    + f_equal. apply IH. lia.
Qed.

(** After the tag, the client cuts the last four characters of the
    response whatever they are: a response with the tag and fewer than
    four further characters becomes empty, and any longer one loses
    exactly its last four characters, fence or not. *)
Theorem tagged_response_loses_four (rest : string) :
  ((String.length rest < 4)%nat -> strip_fence ("```json" ++ rest) = ""%string) /\
  ((4 <= String.length rest)%nat ->
   exists body tail,
     rest = (body ++ tail)%string /\ String.length tail = 4%nat /\
     strip_fence ("```json" ++ rest) = body).
Proof.
  assert (Hcut : strip_fence ("```json" ++ rest)
                 = substring 0 (String.length rest - 4) rest).
  { unfold strip_fence, py_slice. rewrite startswith_app, str_length_app.
    replace (String.length "```json" + String.length rest - 4 - 7)%nat
      with (String.length rest - 4)%nat by (simpl; lia).
    reflexivity. }
  rewrite Hcut. split; intros H.
  - replace (String.length rest - 4)%nat with 0%nat by lia.
    now destruct rest.
  - exists (substring 0 (String.length rest - 4) rest),
           (substring (String.length rest - 4)
              (String.length rest - (String.length rest - 4)) rest).
    split; [apply substring_split; lia |].
    split; [rewrite substring_length; lia | reflexivity].
Qed.

Lemma tagged_response_loses_four_witness :
  strip_fence ("```json" ++ "{}") = ""%string /\
  exists body tail,
    (sample_text = body ++ tail)%string /\ String.length tail = 4%nat /\
    strip_fence ("```json" ++ sample_text) = body.
Proof.
  split.
  - apply (proj1 (tagged_response_loses_four "{}")). simpl. lia.
  - apply (proj2 (tagged_response_loses_four sample_text)). vm_compute. lia.
Defined.

(** ** The client, lines 40-82 *)

(** A response that decodes to [null], a boolean or a number makes
    the key test itself fail; the client reports it through its last
    handler, as an error of communication with the API, and not as a
    response with missing keys. *)
Theorem scalar_response_reported_as_api_error (json_loads : string -> option json)
  (client : string -> string -> api_reply) (image model content : string)
  (data : json) :
  client model image = ApiContent (Some content) ->
  json_loads (strip_fence content) = Some data ->
  is_scalar data = true ->
  get_frame_annotation json_loads client image model
  = ([ChatCreate model image; Print (MsgApiError "TypeError")], Ok None).
Proof.
  intros Hreply Hload Hscalar. unfold get_frame_annotation.
  rewrite Hreply, Hload. destruct data; try discriminate Hscalar; reflexivity.
Qed.

Lemma scalar_response_reported_as_api_error_witness :
  get_frame_annotation decode (fun _ _ => ApiContent (Some "```json 42 ```"))
    "frame" llava
  = ([ChatCreate llava "frame"; Print (MsgApiError "TypeError")], Ok None).
Proof.
  apply (scalar_response_reported_as_api_error decode _ "frame" llava
           "```json 42 ```" (JInt 42)); reflexivity.
Defined.

(** ** Flattening, lines 144-149 *)

Lemma join_value_joinable (sep : string) (x : json) :
  (joinable x = true -> exists s, join_value sep x = Ok s) /\
  (joinable x = false -> join_value sep x = Raise TypeError).
Proof.
  destruct x as [| b | n | q | s | l | d]; simpl;
    try (split; [discriminate | reflexivity]);
    try (split; [intros _; eexists; reflexivity | discriminate]).
  assert (H : match all_strs l with Some _ => true | None => false end
              = forallb is_str l).
  { induction l as [| x l IH]; simpl; [reflexivity |].
    destruct x; simpl; try reflexivity.
    rewrite <- IH. now destruct (all_strs l). }
  destruct (all_strs l) as [ss |]; rewrite <- H; split;
    try discriminate; try reflexivity.
  intros _. eexists. reflexivity.
Qed.

Lemma join_value_raises (sep : string) (x : json) (e : exn) :
  join_value sep x = Raise e -> e = TypeError.
Proof.
  destruct x as [| b | n | q | s | l | d]; simpl; try congruence.
  destruct (all_strs l); congruence.
Qed.

(** Whatever is flattened, the only exception is a TypeError. *)
Lemma flatten_raises_type_error (t : Z) (a : json) (e : exn) :
  flatten_annotation t a = Raise e -> e = TypeError.
Proof.
  destruct a as [| | | | | | d]; simpl; try congruence.
  destruct (join_value ", " (get_or_empty "persons" _)) as [p |] eqn:Hp; simpl.
  - destruct (join_value ", " (get_or_empty "objects" _)) as [o |] eqn:Ho; simpl;
      [discriminate |].
    intros H. inversion H; subst. eapply join_value_raises; eassumption.
  - intros H. inversion H; subst. eapply join_value_raises; eassumption.
Qed.

(** Flattening a dict raises exactly when its persons or its objects
    value cannot be joined (it is [null], a boolean, a number, or a
    list with an element that is not a string), and the exception is a
    TypeError. *)
Theorem flatten_raises_iff (t : Z) (d : dict) (e : exn) :
  flatten_annotation t (JObj d) = Raise e <->
  e = TypeError /\
  (joinable (get_or_empty "persons" d) = false \/
   joinable (get_or_empty "objects" d) = false).
Proof.
  unfold flatten_annotation.
  assert (Hp : get_or_empty "persons" (dict_set "timestamp" (JInt t) d)
               = get_or_empty "persons" d).
  { unfold get_or_empty. now rewrite dict_get_set_other by discriminate. }
  rewrite Hp.
  destruct (join_value_joinable ", " (get_or_empty "persons" d)) as [Hp1 Hp2].
  destruct (joinable (get_or_empty "persons" d)).
  - destruct (Hp1 eq_refl) as [p Hjp]. rewrite Hjp. simpl.
    assert (Ho : get_or_empty "objects"
                   (dict_set "persons" (JStr p) (dict_set "timestamp" (JInt t) d))
                 = get_or_empty "objects" d).
    { unfold get_or_empty. now rewrite !dict_get_set_other by discriminate. }
    rewrite Ho.
    destruct (join_value_joinable ", " (get_or_empty "objects" d)) as [Ho1 Ho2].
    destruct (joinable (get_or_empty "objects" d)).
    + destruct (Ho1 eq_refl) as [o Hjo]. rewrite Hjo. simpl.
      split; [discriminate | intros [_ [H | H]]; discriminate H].
    + rewrite (Ho2 eq_refl). simpl.
      split; [intros H; inversion H; auto | intros [-> _]; reflexivity].
  - rewrite (Hp2 eq_refl). simpl.
    split; [intros H; inversion H; auto | intros [-> _]; reflexivity].
Qed.

Lemma flatten_fields (t : Z) (d a : dict) :
  flatten_annotation t (JObj d) = Ok a ->
  dict_get "timestamp" a = Some (JInt t) /\
  (exists p, dict_get "persons" a = Some (JStr p)) /\
  (exists o, dict_get "objects" a = Some (JStr o)) /\
  (forall k, k <> "timestamp"%string -> k <> "persons"%string ->
             k <> "objects"%string -> dict_get k a = dict_get k d).
Proof.
  unfold flatten_annotation.
  destruct (join_value ", " (get_or_empty "persons" _)) as [p |]; [| discriminate].
  simpl.
  destruct (join_value ", " (get_or_empty "objects" _)) as [o |]; [| discriminate].
  simpl. intros H. inversion H; subst; clear H.
  split; [| split; [| split]].
  - rewrite !dict_get_set_other by discriminate. apply dict_get_set_same.
  - exists p. rewrite dict_get_set_other by discriminate. apply dict_get_set_same.
  - exists o. apply dict_get_set_same.
  - intros k H1 H2 H3. now rewrite !dict_get_set_other by congruence.
Qed.

Lemma dict_keys_set (k : string) (v : json) (d : dict) :
  dict_keys (dict_set k v d) = add_new (dict_keys d) [k].
Proof.
  unfold dict_keys. induction d as [| [k0 v0] d IH]; simpl; [reflexivity |].
  rewrite (String.eqb_sym k k0).
  destruct (String.eqb k0 k) eqn:E; simpl; [reflexivity |].
  rewrite IH. simpl.
  destruct (existsb (String.eqb k) (map fst d)); reflexivity.
Qed.

Lemma add_new_app (seen a b : list string) :
  add_new (add_new seen a) b = add_new seen (a ++ b).
Proof.
  revert seen. induction a as [| k a IH]; intros seen; simpl; [reflexivity |].
  destruct (existsb (String.eqb k) seen); apply IH.
Qed.

(** What flattening does when it succeeds: the timestamp is the one of
    the frame, whatever the response said; persons and objects are
    strings; every other field is as the model gave it; and the keys
    stay in their order, a key that was missing being added at the
    end. *)
Theorem flatten_keeps_other_fields (t : Z) (d a : dict) :
  flatten_annotation t (JObj d) = Ok a ->
  dict_get "timestamp" a = Some (JInt t) /\
  (exists p, dict_get "persons" a = Some (JStr p)) /\
  (exists o, dict_get "objects" a = Some (JStr o)) /\
  (forall k, k <> "timestamp"%string -> k <> "persons"%string ->
             k <> "objects"%string -> dict_get k a = dict_get k d) /\
  dict_keys a = add_new (dict_keys d) ["timestamp"; "persons"; "objects"]%string.
Proof.
  intros H.
  destruct (flatten_fields _ _ _ H) as (Hts & Hp & Ho & Hother).
  repeat (split; [assumption |]).
  unfold flatten_annotation in H.
  destruct (join_value ", " (get_or_empty "persons" _)) as [p |]; [| discriminate].
  simpl in H.
  destruct (join_value ", " (get_or_empty "objects" _)) as [o |]; [| discriminate].
  simpl in H. inversion H; subst; clear H.
  rewrite !dict_keys_set, !add_new_app. reflexivity.
Qed.

Lemma flatten_keeps_other_fields_witness :
  exists a,
    flatten_annotation 5 (JObj (("timestamp", JStr "noon") :: sample_dict)) = Ok a /\
    dict_get "timestamp" a = Some (JInt 5) /\
    dict_get "mood" a = Some (JStr "cheerful").
Proof.
  eexists. split; [reflexivity |].
  destruct (flatten_keeps_other_fields 5 (("timestamp", JStr "noon") :: sample_dict)
              _ eq_refl) as (Hts & _ & _ & Hother & _).
  split; [exact Hts |].
  rewrite (Hother "mood"%string) by discriminate. reflexivity.
Defined.

(** ** Values that are not dicts, lines 71 and 144-145 *)

Lemma validated_is_truthy (data : json) :
  all_in required_keys data = Ok true -> is_dict data = false -> truthy data = true.
Proof.
  destruct data as [| b | n | q | s | l | d]; try discriminate.
  - destruct s; [discriminate | reflexivity].
  - destruct l; [discriminate | reflexivity].
Qed.

(** The key test is a membership test, so a JSON list that contains
    the five key names, or a JSON string in which they occur, passes
    it.  The client returns such a value, and the driver then raises a
    TypeError on the item assignment: the loop stops at this frame, the
    later timestamps are not visited, and nothing is appended. *)
Theorem non_dict_response_aborts (json_loads : string -> option json) (w : World)
  (model : string) (fps : Q) (t : Z) (rest : list Z) (st : loop_state)
  (frame content : string) (data : json) :
  cap_read w (frame_id t fps) = Some frame ->
  chat_create w (calls st) model (imencode_b64 w frame) = ApiContent (Some content) ->
  json_loads (strip_fence content) = Some data ->
  is_dict data = false ->
  all_in required_keys data = Ok true ->
  snd (get_frame_annotation json_loads (chat_create w (calls st))
         (imencode_b64 w frame) model) = Ok (Some data) /\
  exists st',
    loop json_loads w model fps (t :: rest) st = (st', Raise TypeError) /\
    all_annotations st' = all_annotations st /\
    trace st' = trace st ++ [CapRead (frame_id t fps); PbarSetDescription t;
                             ChatCreate model (imencode_b64 w frame)].
Proof.
  intros Hread Hreply Hload Hnd Hall.
  assert (Hc : get_frame_annotation json_loads (chat_create w (calls st))
                 (imencode_b64 w frame) model
               = ([ChatCreate model (imencode_b64 w frame)], Ok (Some data))).
  { unfold get_frame_annotation. now rewrite Hreply, Hload, Hall. }
  split; [now rewrite Hc |].
  assert (Hflat : flatten_annotation t data = Raise TypeError)
    by (destruct data; try reflexivity; discriminate Hnd).
  eexists. split; [| split].
  - simpl loop. unfold step. rewrite Hread. simpl. rewrite Hc.
    rewrite (validated_is_truthy _ Hall Hnd), Hflat. reflexivity.
  - reflexivity.
  - cbn [trace log]. now rewrite <- !app_assoc.
Qed.

Lemma non_dict_response_aborts_witness :
  exists st',
    loop decode holiday_listing llava 25 [0; 5; 10] (mkState [] [] 0)
    = (st', Raise TypeError) /\
    all_annotations st' = [] /\
    trace st' = [CapRead 0; PbarSetDescription 0; ChatCreate llava "frame"].
Proof.
  apply (non_dict_response_aborts decode holiday_listing llava 25 0 [5; 10]
           (mkState [] [] 0) "frame" sample_key_list
           (JArr [JStr "title"; JStr "caption"; JStr "scene_description";
                  JStr "persons"; JStr "objects"]));
    reflexivity.
Defined.

(** ** What the loop reads and sends, lines 128-158 *)

Lemma reads_app (a b : list event) : reads (a ++ b) = reads a ++ reads b.
Proof.
  induction a as [| e a IH]; simpl; [reflexivity |].
  destruct e; simpl; rewrite IH; reflexivity.
Qed.

Lemma requests_app (a b : list event) : requests (a ++ b) = requests a ++ requests b.
Proof.
  induction a as [| e a IH]; simpl; [reflexivity |].
  destruct e; simpl; rewrite IH; reflexivity.
Qed.

Lemma updates_app (a b : list event) : updates (a ++ b) = (updates a + updates b)%nat.
Proof.
  induction a as [| e a IH]; simpl; [reflexivity |].
  destruct e; simpl; rewrite IH; reflexivity.
Qed.

Lemma releases_app (a b : list event) :
  releases (a ++ b) = (releases a + releases b)%nat.
Proof.
  induction a as [| e a IH]; simpl; [reflexivity |].
  destruct e; simpl; rewrite IH; reflexivity.
Qed.

(** The client sends one request and touches nothing else. *)
Lemma client_events (json_loads : string -> option json)
  (client : string -> string -> api_reply) (image model : string) :
  let did := fst (get_frame_annotation json_loads client image model) in
  reads did = [] /\ requests did = [(model, image)] /\
  updates did = 0%nat /\ releases did = 0%nat.
Proof.
  unfold get_frame_annotation.
  destruct (client model image) as [detail | | [content |]];
    [now repeat split | now repeat split | | now repeat split].
  destruct (json_loads (strip_fence content)) as [data |]; [| now repeat split].
  destruct (all_in required_keys data) as [[|] | e]; now repeat split.
Qed.

(** The client raises only when the request itself raised
    [json.JSONDecodeError], and then it is an UnboundLocalError, with
    nothing printed. *)
Lemma client_raises (json_loads : string -> option json)
  (client : string -> string -> api_reply) (image model : string)
  (did : list event) (e : exn) :
  get_frame_annotation json_loads client image model = (did, Raise e) ->
  client model image = ApiRaiseJSONDecodeError /\
  e = UnboundLocalError /\ did = [ChatCreate model image].
Proof.
  unfold get_frame_annotation.
  destruct (client model image) as [detail | | [content |]]; try discriminate.
  - intros H; inversion H; subst. repeat split.
  - destruct (json_loads (strip_fence content)) as [data |]; [| discriminate].
    destruct (all_in required_keys data) as [[|] | e']; discriminate.
Qed.

(** One pass: one read; one request and one more call exactly when
    the frame decodes; one advance of the progress bar when the frame
    decodes and the pass does not raise; the only exceptions are a
    TypeError and an UnboundLocalError. *)
Lemma step_io (json_loads : string -> option json) (w : World) (model : string)
  (fps : Q) (t : Z) (st st' : loop_state) (res : result unit) :
  step json_loads w model fps t st = (st', res) ->
  exists evs,
    trace st' = trace st ++ evs /\
    reads evs = [frame_id t fps] /\
    requests evs = map (fun f => (model, imencode_b64 w f)) (decoded_frames w fps [t]) /\
    calls st' = (calls st + List.length (decoded_frames w fps [t]))%nat /\
    releases evs = 0%nat /\
    (res = Ok tt -> updates evs = List.length (decoded_frames w fps [t])) /\
    (forall e, res = Raise e -> e = TypeError \/ e = UnboundLocalError).
Proof.
  unfold step, decoded_frames. simpl flat_map.
  destruct (cap_read w (frame_id t fps)) as [frame |].
  2:{ intros H; inversion H; subst; clear H.
      exists [CapRead (frame_id t fps)]. cbn [trace log calls].
      rewrite Nat.add_0_r. repeat split. discriminate. }
  simpl.
  destruct (get_frame_annotation json_loads (chat_create w (calls st))
              (imencode_b64 w frame) model) as [did ann] eqn:Hc.
  pose proof (client_events json_loads (chat_create w (calls st))
                (imencode_b64 w frame) model) as Hev.
  rewrite Hc in Hev. cbn [fst] in Hev. destruct Hev as (Hr & Hq & Hu & Hrel).
  destruct (client_spec _ _ _ _ _ _ Hc) as (_ & _ & Hvalid).
  assert (Hfailed : forall s r,
    (log (mkState (all_annotations st)
            (((trace st ++ [CapRead (frame_id t fps)]) ++ [PbarSetDescription t]) ++ did)
            (S (calls st)))
         [Print (MsgFailed t); PbarUpdate], Ok tt) = (s, r) ->
    exists evs,
      trace s = trace st ++ evs /\ reads evs = [frame_id t fps] /\
      requests evs = [(model, imencode_b64 w frame)] /\
      calls s = (calls st + 1)%nat /\ releases evs = 0%nat /\
      (r = Ok tt -> updates evs = 1%nat) /\
      (forall e, r = Raise e -> e = TypeError \/ e = UnboundLocalError)).
  { intros s r H; inversion H; subst; clear H.
    exists ([CapRead (frame_id t fps); PbarSetDescription t] ++ did
            ++ [Print (MsgFailed t); PbarUpdate]).
    cbn [trace log calls]. rewrite <- !app_assoc.
    repeat split.
    - simpl. now rewrite reads_app, Hr.
    - simpl. now rewrite requests_app, Hq.
    - lia.
    - simpl. now rewrite releases_app, Hrel.
    - intros _. simpl. now rewrite updates_app, Hu.
    - discriminate. }
  assert (Hraised : forall s (e : exn) r,
    (e = TypeError \/ e = UnboundLocalError) ->
    (mkState (all_annotations st)
       (((trace st ++ [CapRead (frame_id t fps)]) ++ [PbarSetDescription t]) ++ did)
       (S (calls st)), @Raise unit e) = (s, r) ->
    exists evs,
      trace s = trace st ++ evs /\ reads evs = [frame_id t fps] /\
      requests evs = [(model, imencode_b64 w frame)] /\
      calls s = (calls st + 1)%nat /\ releases evs = 0%nat /\
      (r = Ok tt -> updates evs = 1%nat) /\
      (forall e, r = Raise e -> e = TypeError \/ e = UnboundLocalError)).
  { intros s e r He H; inversion H; subst; clear H.
    exists ([CapRead (frame_id t fps); PbarSetDescription t] ++ did).
    cbn [trace log calls]. rewrite <- !app_assoc.
    repeat split.
    - simpl. now rewrite Hr.
    - simpl. now rewrite Hq.
    - lia.
    - simpl. now rewrite Hrel.
    - discriminate.
    - intros e' He'. inversion He'; subst. exact He. }
  destruct ann as [[a |] | e0]; [| apply Hfailed |].
  2:{ apply Hraised. right. now destruct (client_raises _ _ _ _ _ _ Hc) as (_ & -> & _). }
  destruct (truthy a); [| apply Hfailed].
  destruct (flatten_annotation t a) as [d | e] eqn:Hflat.
  - destruct (flatten_spec _ _ _ Hflat (Hvalid a eq_refl)) as [Hcomplete _].
    destruct (complete_getitem d "title" Hcomplete) as [title Htitle];
      [simpl; tauto |].
    destruct (complete_getitem d "caption" Hcomplete) as [caption Hcaption];
      [simpl; tauto |].
    rewrite Htitle, Hcaption.
    intros H; inversion H; subst; clear H.
    exists ([CapRead (frame_id t fps); PbarSetDescription t] ++ did
            ++ [Print (MsgAnnotated t title caption); PbarUpdate]).
    cbn [trace log calls]. rewrite <- !app_assoc.
    repeat split.
    + simpl. now rewrite reads_app, Hr.
    + simpl. now rewrite requests_app, Hq.
    + lia.
    + simpl. now rewrite releases_app, Hrel.
    + intros _. simpl. now rewrite updates_app, Hu.
    + discriminate.
  - apply Hraised. left. eapply flatten_raises_type_error; eassumption.
Qed.

Lemma decoded_frames_cons (w : World) (fps : Q) (t : Z) (ts : list Z) :
  decoded_frames w fps (t :: ts) = decoded_frames w fps [t] ++ decoded_frames w fps ts.
Proof. unfold decoded_frames. simpl. now rewrite app_nil_r. Qed.

Lemma loop_io (json_loads : string -> option json) (w : World) (model : string)
  (fps : Q) (ts : list Z) (st st' : loop_state) (res : result unit) :
  loop json_loads w model fps ts st = (st', res) ->
  exists evs,
    trace st' = trace st ++ evs /\
    releases evs = 0%nat /\
    (forall e, res = Raise e -> e = TypeError \/ e = UnboundLocalError) /\
    (res = Ok tt ->
     reads evs = map (fun t => frame_id t fps) ts /\
     requests evs = map (fun f => (model, imencode_b64 w f)) (decoded_frames w fps ts) /\
     calls st' = (calls st + List.length (decoded_frames w fps ts))%nat /\
     updates evs = List.length (decoded_frames w fps ts)).
Proof.
  revert st. induction ts as [| t rest IH]; intros st; cbn [loop].
  - intros H; inversion H; subst. exists []. simpl.
    rewrite app_nil_r, Nat.add_0_r. repeat split. discriminate.
  - destruct (step json_loads w model fps t st) as [st1 r1] eqn:Hstep.
    destruct (step_io _ _ _ _ _ _ _ _ Hstep)
      as (e1 & Ht1 & Hr1 & Hq1 & Hc1 & Hrel1 & Hu1 & Hx1).
    destruct r1 as [[] | e].
    + intros Hloop.
      destruct (IH _ Hloop) as (e2 & Ht2 & Hrel2 & Hx2 & Hok2).
      exists (e1 ++ e2). split; [now rewrite Ht2, Ht1, app_assoc |].
      split; [now rewrite releases_app, Hrel1, Hrel2 |].
      split; [exact Hx2 |].
      intros Hres. destruct (Hok2 Hres) as (Hr2 & Hq2 & Hc2 & Hu2).
      rewrite decoded_frames_cons, length_app, map_app.
      rewrite reads_app, requests_app, updates_app, Hr1, Hq1, Hr2, Hq2, Hu2,
        (Hu1 eq_refl), Hc2, Hc1.
      repeat split. lia.
    + intros H; inversion H; subst.
      exists e1. split; [assumption |]. split; [assumption |].
      split; [| discriminate].
      intros e0 He0. inversion He0; subst. now apply Hx1.
Qed.

(** A loop that ends normally has read the frame of every sample
    timestamp exactly once and in order, has sent exactly one request,
    with the given model name, for each frame that decoded and none for
    the others, and has advanced the progress bar once per decoded
    frame. *)
Theorem loop_visits_each_timestamp_once (json_loads : string -> option json)
  (w : World) (model : string) (fps : Q) (ts : list Z) (st st' : loop_state) :
  loop json_loads w model fps ts st = (st', Ok tt) ->
  exists evs,
    trace st' = trace st ++ evs /\
    reads evs = map (fun t => frame_id t fps) ts /\
    requests evs = map (fun f => (model, imencode_b64 w f)) (decoded_frames w fps ts) /\
    calls st' = (calls st + List.length (decoded_frames w fps ts))%nat /\
    updates evs = List.length (decoded_frames w fps ts).
Proof.
  intros H. destruct (loop_io _ _ _ _ _ _ _ _ H) as (evs & Ht & _ & _ & Hok).
  exists evs. split; [exact Ht | now apply Hok].
Qed.

Lemma loop_visits_each_timestamp_once_witness :
  exists st' evs,
    loop decode holiday_damaged llava 25 [0; 5; 10] (mkState [] [] 0) = (st', Ok tt) /\
    trace st' = evs /\
    reads evs = [0; 125; 250] /\
    requests evs = [(llava, "frame"); (llava, "frame")]%string /\
    updates evs = 2%nat.
Proof.
  destruct (loop decode holiday_damaged llava 25 [0; 5; 10] (mkState [] [] 0))
    as [st' res] eqn:Hloop.
  assert (Hres : res = Ok tt) by (vm_compute in Hloop; congruence).
  subst res.
  destruct (loop_visits_each_timestamp_once _ _ _ _ _ _ _ Hloop)
    as (evs & Ht & Hr & Hq & _ & Hu).
  exists st', evs. repeat split; assumption.
Defined.

(** ** Whole runs *)

Lemma process_video_after_start (json_loads : string -> option json) (w : World)
  (video_path : string) (interval_seconds : Z) (api_url model_name : string)
  (d : Q) (ts : list Z) :
  started w video_path api_url ->
  duration_seconds (py_int (cap_frame_count w)) (cap_fps w) = Ok d ->
  timestamps d interval_seconds = Ok ts ->
  process_video json_loads w video_path interval_seconds api_url model_name
  = match loop json_loads w model_name (cap_fps w) ts
            (initial_state w video_path interval_seconds api_url d) with
    | (st, Raise e) => mkRun (trace st) (Raise e)
    | (st, Ok _) => finalize w video_path st
    end.
Proof.
  intros (Hp & Hm & Ho) Hd Hts. unfold process_video.
  rewrite Hp, Hm, Ho. simpl. rewrite Hd, Hts. reflexivity.
Qed.

Lemma with_suffix_raises (P : PurePath) (e : exn) :
  with_suffix P ".csv" = Raise e -> e = ValueError /\ name P = ""%string.
Proof.
  unfold with_suffix.
  change (str_contains "/" ".csv") with false.
  change (negb (String.eqb ".csv" "") && negb (startswith "." ".csv")
          || String.eqb ".csv" ".")%bool with false.
  cbv iota.
  destruct (String.eqb_spec (name P) "") as [E | Hne]; [| discriminate].
  intros H. inversion H. now split.
Qed.

(** The four ways in which the part after the loop can go. *)
Lemma finalize_cases (w : World) (video_path : string) (st : loop_state) :
  Forall (fun a => complete a = true) (all_annotations st) ->
  (all_annotations st = [] /\
   finalize w video_path st
   = mkRun (trace st ++ [CapRelease; Print MsgNoAnnotations]) (Ok tt)) \/
  (all_annotations st <> [] /\ name (Path video_path) = ""%string /\
   finalize w video_path st = mkRun (trace st ++ [CapRelease]) (Raise ValueError)) \/
  (all_annotations st <> [] /\
   exists p e, with_suffix (Path video_path) ".csv" = Ok p /\
     to_csv w p (mkDF column_order (map row_of (all_annotations st))) = Some e /\
     finalize w video_path st = mkRun (trace st ++ [CapRelease]) (Raise e)) \/
  (all_annotations st <> [] /\
   exists p, with_suffix (Path video_path) ".csv" = Ok p /\
     to_csv w p (mkDF column_order (map row_of (all_annotations st))) = None /\
     finalize w video_path st
     = mkRun (trace st ++ [CapRelease;
                           ToCsv p (mkDF column_order (map row_of (all_annotations st)));
                           Print (MsgSaved p)]) (Ok tt)).
Proof.
  intros Hc. unfold finalize.
  destruct (all_annotations st) as [| a anns] eqn:Ha.
  - left. split; [reflexivity |]. now rewrite <- app_assoc.
  - right. rewrite select_rows by (now inversion Hc).
    destruct (with_suffix (Path video_path) ".csv") as [p | e] eqn:Hp.
    + right. destruct (to_csv w p _) as [e |] eqn:Hw.
      * left. split; [discriminate |]. exists p, e. repeat split. exact Hw.
      * right. split; [discriminate |]. exists p. split; [reflexivity |].
        split; [exact Hw |]. now rewrite <- app_assoc.
    + left. destruct (with_suffix_raises _ _ Hp) as [-> Hn].
      split; [discriminate |]. now split.
Qed.

(** Every run is of one of three kinds: it stops at a start-up check;
    it stops at one of the two divisions; or it enters the loop, and
    what follows is decided by how the loop ends. *)
Lemma run_cases (json_loads : string -> option json) (w : World)
  (video_path : string) (interval_seconds : Z) (api_url model_name : string) :
  let r := process_video json_loads w video_path interval_seconds api_url model_name in
  (~ started w video_path api_url /\ outcome r = Ok tt /\
   written (events r) = None /\ releases (events r) = 0%nat /\
   reads (events r) = [] /\ requests (events r) = []) \/
  (started w video_path api_url /\
   ((cap_fps w == 0)%Q \/ interval_seconds = 0) /\
   outcome r = Raise ZeroDivisionError /\
   written (events r) = None /\ releases (events r) = 0%nat /\
   reads (events r) = [] /\ requests (events r) = []) \/
  (started w video_path api_url /\
   exists d ts st res,
     duration_seconds (py_int (cap_frame_count w)) (cap_fps w) = Ok d /\
     timestamps d interval_seconds = Ok ts /\
     interval_seconds <> 0 /\
     loop json_loads w model_name (cap_fps w) ts
       (initial_state w video_path interval_seconds api_url d) = (st, res) /\
     r = match res with
         | Raise e => mkRun (trace st) (Raise e)
         | Ok _ => finalize w video_path st
         end).
Proof.
  intros r. subst r. unfold process_video.
  destruct (path_exists w video_path) eqn:Hpath; simpl.
  2:{ left. repeat split. intros (H & _). congruence. }
  destruct (models_list w api_url) as [detail |] eqn:Hprobe.
  { left. repeat split. intros (_ & H & _). congruence. }
  destruct (cap_isOpened w video_path) eqn:Hopen; simpl.
  2:{ left. repeat split. intros (_ & _ & H). congruence. }
  assert (Hstarted : started w video_path api_url) by (repeat split; assumption).
  right.
  destruct (duration_seconds (py_int (cap_frame_count w)) (cap_fps w))
    as [d | e] eqn:Hd.
  2:{ left. unfold duration_seconds, py_truediv in Hd.
      destruct (Qeq_bool (cap_fps w) 0) eqn:E; inversion Hd; subst.
      apply Qeq_bool_iff in E. repeat split; auto. }
  destruct (timestamps d interval_seconds) as [ts | e] eqn:Hts.
  2:{ left. destruct (Z.eq_dec interval_seconds 0) as [E | E].
      - unfold timestamps in Hts. rewrite E, py_truediv_zero in Hts by reflexivity.
        inversion Hts; subst. repeat split; auto.
      - rewrite timestamps_ok in Hts by assumption. discriminate Hts. }
  right. split; [assumption |].
  assert (Hi : interval_seconds <> 0).
  { intros ->. unfold timestamps in Hts.
    rewrite py_truediv_zero in Hts by reflexivity. discriminate Hts. }
  fold (initial_state w video_path interval_seconds api_url d).
  destruct (loop json_loads w model_name (cap_fps w) ts
              (initial_state w video_path interval_seconds api_url d))
    as [st res] eqn:Hloop.
  exists d, ts, st, res. repeat split; assumption.
Qed.

(** What the loop leaves when started from the initial state. *)
Lemma loop_from_start (json_loads : string -> option json) (w : World)
  (video_path : string) (interval_seconds : Z) (api_url model : string) (d : Q)
  (ts : list Z) (st : loop_state) (res : result unit) :
  loop json_loads w model (cap_fps w) ts
    (initial_state w video_path interval_seconds api_url d) = (st, res) ->
  Forall (fun a => complete a = true) (all_annotations st) /\
  written (trace st) = None /\
  releases (trace st) = 0%nat /\
  (forall e, res = Raise e -> e = TypeError \/ e = UnboundLocalError).
Proof.
  intros Hloop.
  destruct (loop_spec _ _ _ _ _ _ _ _ Hloop) as (evs & anns & Hadv & _).
  destruct Hadv as (Htr & Hall & Hpf & Hc & _).
  destruct (loop_io _ _ _ _ _ _ _ _ Hloop) as (evs' & Htr' & Hrel & Hx & _).
  destruct (per_frame_quiet _ Hpf) as [Hw _].
  repeat split.
  - rewrite Hall. exact Hc.
  - rewrite Htr, written_app. simpl. exact Hw.
  - rewrite Htr', releases_app. simpl. exact Hrel.
  - exact Hx.
Qed.

(** The loop over a list of timestamps in two parts. *)
Lemma loop_app (json_loads : string -> option json) (w : World) (model : string)
  (fps : Q) (pre rest : list Z) (st : loop_state) :
  loop json_loads w model fps (pre ++ rest) st
  = match loop json_loads w model fps pre st with
    | (st', Ok _) => loop json_loads w model fps rest st'
    | (st', Raise e) => (st', Raise e)
    end.
Proof.
  revert st. induction pre as [| t pre IH]; intros st; [reflexivity |].
  cbn [app loop].
  destruct (step json_loads w model fps t st) as [st1 [[] | e]]; [apply IH | reflexivity].
Qed.

(** When the request for a frame itself raises [json.JSONDecodeError],
    the handler of the client fails on the unassigned [content]: an
    UnboundLocalError leaves [process_video] right after that request.
    The video is not released and no file is written, whatever the
    earlier frames have given. *)
Theorem request_decode_error_escapes (json_loads : string -> option json) (w : World)
  (video_path : string) (interval_seconds : Z) (api_url model_name : string)
  (d : Q) (pre rest : list Z) (t : Z) (st : loop_state) (frame : string) :
  started w video_path api_url ->
  duration_seconds (py_int (cap_frame_count w)) (cap_fps w) = Ok d ->
  timestamps d interval_seconds = Ok (pre ++ t :: rest) ->
  loop json_loads w model_name (cap_fps w) pre
    (initial_state w video_path interval_seconds api_url d) = (st, Ok tt) ->
  cap_read w (frame_id t (cap_fps w)) = Some frame ->
  chat_create w (calls st) model_name (imencode_b64 w frame)
  = ApiRaiseJSONDecodeError ->
  let r := process_video json_loads w video_path interval_seconds api_url model_name in
  outcome r = Raise UnboundLocalError /\
  events r = trace st ++ [CapRead (frame_id t (cap_fps w)); PbarSetDescription t;
                          ChatCreate model_name (imencode_b64 w frame)] /\
  written (events r) = None /\
  releases (events r) = 0%nat.
Proof.
  intros Hst Hd Hts Hpre Hread Hreply r.
  assert (Hstep : step json_loads w model_name (cap_fps w) t st
                  = (mkState (all_annotations st)
                       (trace st ++ [CapRead (frame_id t (cap_fps w));
                                     PbarSetDescription t;
                                     ChatCreate model_name (imencode_b64 w frame)])
                       (S (calls st)), Raise UnboundLocalError)).
  { unfold step. rewrite Hread. cbn [log trace calls all_annotations].
    unfold get_frame_annotation. rewrite Hreply.
    now rewrite <- !app_assoc. }
  assert (Hr : r = mkRun (trace st ++ [CapRead (frame_id t (cap_fps w));
                                       PbarSetDescription t;
                                       ChatCreate model_name (imencode_b64 w frame)])
                         (Raise UnboundLocalError)).
  { unfold r. rewrite (process_video_after_start _ _ _ _ _ _ d (pre ++ t :: rest))
      by assumption.
    rewrite loop_app, Hpre. cbn [loop]. now rewrite Hstep. }
  destruct (loop_from_start _ _ _ _ _ _ _ _ _ _ Hpre) as (_ & Hw & Hrel & _).
  rewrite Hr. cbn [events outcome]. repeat split.
  - rewrite written_app, Hw. reflexivity.
  - rewrite releases_app, Hrel. reflexivity.
Qed.

(** The first frame is annotated, the second request raises: the run
    ends with an UnboundLocalError and the annotation is lost. *)
Lemma request_decode_error_escapes_witness :
  let r := process_video decode holiday_garbled "videos/holiday.mp4" 5 localhost llava in
  annotated (events r) = [0] /\
  outcome r = Raise UnboundLocalError /\
  written (events r) = None /\
  releases (events r) = 0%nat.
Proof.
  intros r. split; [vm_compute; reflexivity |].
  pose (st := fst (loop decode holiday_garbled llava 25 [0]
                     (initial_state holiday_garbled "videos/holiday.mp4" 5
                        localhost 15))).
  destruct (request_decode_error_escapes decode holiday_garbled "videos/holiday.mp4" 5
              localhost llava 15 [0] [10] 5 st "frame")
    as (H1 & _ & H3 & H4);
    [repeat split | vm_compute; reflexivity | vm_compute; reflexivity
     | vm_compute; reflexivity | reflexivity | vm_compute; reflexivity |].
  repeat split; assumption.
Defined.

(** The video is released exactly when the loop has run to its end,
    whatever happens afterwards; a run that returns normally after the
    start-up checks has released it, and a run that ends in the loop or
    at a division has not. *)
Theorem release_iff_loop_completes (json_loads : string -> option json) (w : World)
  (video_path : string) (interval_seconds : Z) (api_url model_name : string) :
  let r := process_video json_loads w video_path interval_seconds api_url model_name in
  (releases (events r) <= 1)%nat /\
  (releases (events r) = 1%nat <->
   started w video_path api_url /\
   exists d ts st,
     duration_seconds (py_int (cap_frame_count w)) (cap_fps w) = Ok d /\
     timestamps d interval_seconds = Ok ts /\
     loop json_loads w model_name (cap_fps w) ts
       (initial_state w video_path interval_seconds api_url d) = (st, Ok tt)) /\
  (started w video_path api_url -> outcome r = Ok tt -> releases (events r) = 1%nat).
Proof.
  intros r.
  destruct (run_cases json_loads w video_path interval_seconds api_url model_name)
    as [(Hns & Hout & _ & Hrel & _)
       | [(Hst & Hz & Hout & _ & Hrel & _)
         | (Hst & d & ts & st & res & Hd & Hts & Hi & Hloop & Hr)]];
    try fold r in Hout; try fold r in Hrel.
  - rewrite Hrel. split; [lia |]. split.
    + split; [discriminate |]. intros [H _]. contradiction.
    + intros H. contradiction.
  - rewrite Hrel, Hout. split; [lia |]. split.
    + split; [discriminate |].
      intros (_ & d & ts & st & Hd & Hts & _). exfalso.
      destruct Hz as [Hz | Hz].
      * unfold duration_seconds in Hd. rewrite py_truediv_zero in Hd by assumption.
        discriminate Hd.
      * unfold timestamps in Hts. rewrite Hz, py_truediv_zero in Hts by reflexivity.
        discriminate Hts.
    + intros _ H. discriminate H.
  - fold r in Hr.
    destruct (loop_from_start _ _ _ _ _ _ _ _ _ _ Hloop) as (Hc & _ & Hrel & Hx).
    destruct res as [[] | e'].
    + assert (Hone : releases (events r) = 1%nat).
      { destruct (finalize_cases w video_path st Hc)
          as [(_ & Hf) | [(_ & Hn & Hf) | [(_ & p & e & _ & _ & Hf) | (_ & p & _ & _ & Hf)]]];
          rewrite Hf in Hr; rewrite Hr; cbn [events];
          rewrite releases_app, Hrel; reflexivity. }
      rewrite Hone. split; [lia |]. split; [| auto].
      split; [| reflexivity]. intros _. split; [assumption |].
      exists d, ts, st. auto.
    + rewrite Hr. cbn [events outcome]. rewrite Hrel.
      split; [lia |]. split.
      * split; [discriminate |].
        intros (_ & d' & ts' & st' & Hd' & Hts' & Hloop'). exfalso.
        rewrite Hd in Hd'. injection Hd' as <-.
        rewrite Hts in Hts'. injection Hts' as <-.
        rewrite Hloop in Hloop'. discriminate Hloop'.
      * intros _ H. discriminate H.
Qed.

(** On the sample video the loop completes and the video is released,
    also when the table cannot be written. *)
Lemma release_iff_loop_completes_witness :
  releases (events (process_video decode holiday_readonly
                      "videos/holiday.mp4" 5 localhost llava)) = 1%nat /\
  outcome (process_video decode holiday_readonly
             "videos/holiday.mp4" 5 localhost llava) = Raise OSError.
Proof.
  split; [| vm_compute; reflexivity].
  apply (proj1 (proj2 (release_iff_loop_completes decode holiday_readonly
                         "videos/holiday.mp4" 5 localhost llava))).
  split; [repeat split |].
  eexists _, _, _. split; [vm_compute; reflexivity |].
  split; [vm_compute; reflexivity |]. vm_compute. reflexivity.
Defined.

(** The file is all or nothing: a run that ends with an exception has
    written no file, whatever it had annotated before; and a file, when
    there is one, is written once, after the video is released, as the
    last action but the closing message, by a run that returns
    normally. *)
Theorem file_is_written_last (json_loads : string -> option json) (w : World)
  (video_path : string) (interval_seconds : Z) (api_url model_name : string) :
  let r := process_video json_loads w video_path interval_seconds api_url model_name in
  (forall e, outcome r = Raise e -> written (events r) = None) /\
  (forall p df, written (events r) = Some (p, df) ->
     outcome r = Ok tt /\
     exists evs, events r = evs ++ [CapRelease; ToCsv p df; Print (MsgSaved p)] /\
                 written evs = None).
Proof.
  intros r.
  pose proof (process_video_shape json_loads w video_path interval_seconds
                api_url model_name) as Hshape.
  fold r in Hshape.
  destruct Hshape as [Hp | detail Hp Hm | Hp Hm Ho | Hst Hf | d Hst Hd Hi0
                      | d ts evs tail anns res Hst Hd Hi Hts Hpf Hsub Hc Hmap Hend];
    cbn [events outcome];
    try (split; [reflexivity || discriminate | intros p df H; discriminate H]).
  destruct (per_frame_quiet _ Hpf) as [Hquiet _].
  assert (Hhead : forall tl,
            written (ModelsList api_url :: VideoCapture video_path ::
                     Print (MsgVideoInfo video_path (cap_fps w) d) ::
                     Print (MsgAnalyzing interval_seconds) :: evs ++ tl)
            = written tl).
  { intros tl. simpl. now rewrite written_app, Hquiet. }
  rewrite Hhead.
  destruct Hend as [e | Hnil | e Hne He | p e Hne Hp Hcsv | p Hne Hp Hcsv];
    simpl written.
  - split; [reflexivity | intros p df H; discriminate H].
  - split; [discriminate | intros p df H; discriminate H].
  - split; [reflexivity | intros p df H; discriminate H].
  - split; [reflexivity | intros p' df H; discriminate H].
  - split; [discriminate |]. intros p' df H. inversion H; subst; clear H.
    split; [reflexivity |].
    exists (ModelsList api_url :: VideoCapture video_path ::
            Print (MsgVideoInfo video_path (cap_fps w) d) ::
            Print (MsgAnalyzing interval_seconds) :: evs).
    split.
    + simpl. reflexivity.
    + specialize (Hhead []). rewrite app_nil_r in Hhead. exact Hhead.
Qed.

Lemma file_is_written_last_witness :
  let r := process_video decode holiday_spoiled "videos/holiday.mp4" 5
             localhost llava in
  annotated (events r) = [0] /\ written (events r) = None.
Proof.
  intros r. split; [vm_compute; reflexivity |].
  apply (proj1 (file_is_written_last decode holiday_spoiled "videos/holiday.mp4" 5
                  localhost llava) TypeError).
  vm_compute. reflexivity.
Defined.

(** ** The cells of the table *)

(** A value returned by the client is the decoded text of the reply,
    and has passed the key test. *)
Lemma client_returns (json_loads : string -> option json)
  (client : string -> string -> api_reply) (image model : string)
  (did : list event) (a : json) :
  get_frame_annotation json_loads client image model = (did, Ok (Some a)) ->
  exists content,
    client model image = ApiContent (Some content) /\
    json_loads (strip_fence content) = Some a /\
    all_in required_keys a = Ok true.
Proof.
  unfold get_frame_annotation.
  destruct (client model image) as [detail | | [content |]]; try discriminate.
  destruct (json_loads (strip_fence content)) as [data |] eqn:Hload; [| discriminate].
  destruct (all_in required_keys data) as [[|] | e] eqn:Hall; try discriminate.
  intros H. inversion H; subst. exists content. repeat split; assumption.
Qed.

(** A pass of the loop leaves the annotations alone or appends the
    flattened answer of the model for its frame. *)
Lemma step_appends (json_loads : string -> option json) (w : World)
  (model : string) (fps : Q) (t : Z) (st st' : loop_state) (res : result unit) :
  step json_loads w model fps t st = (st', res) ->
  all_annotations st' = all_annotations st \/
  exists d0 d,
    answered json_loads w model fps t d0 /\
    flatten_annotation t (JObj d0) = Ok d /\
    all_annotations st' = all_annotations st ++ [d].
Proof.
  unfold step.
  destruct (cap_read w (frame_id t fps)) as [frame |] eqn:Hread;
    [| intros H; inversion H; now left].
  simpl.
  destruct (get_frame_annotation json_loads (chat_create w (calls st))
              (imencode_b64 w frame) model) as [did ann] eqn:Hc.
  destruct ann as [[a |] | e0]; try (intros H; inversion H; now left).
  destruct (client_returns _ _ _ _ _ _ Hc) as (content & Hreply & Hload & Hvalid).
  destruct (truthy a); [| intros H; inversion H; now left].
  destruct (flatten_annotation t a) as [d | e] eqn:Hflat;
    [| intros H; inversion H; now left].
  intros H. right.
  destruct a as [| | | | | | d0]; try discriminate Hflat.
  rewrite all_in_dict in Hvalid.
  injection Hvalid as Hkeys.
  exists d0, d. split; [| split; [assumption |]].
  - exists frame, (calls st), content. repeat split; assumption.
  - destruct (getitem "title" d), (getitem "caption" d); inversion H; reflexivity.
Qed.

(** The annotations that the loop appends are the flattened answers of
    the model for some of its timestamps. *)
Lemma loop_appends (json_loads : string -> option json) (w : World)
  (model : string) (fps : Q) (ts : list Z) (st st' : loop_state) (res : result unit) :
  loop json_loads w model fps ts st = (st', res) ->
  exists news,
    all_annotations st' = all_annotations st ++ news /\
    Forall (fun a => exists t d0,
              In t ts /\ answered json_loads w model fps t d0 /\
              flatten_annotation t (JObj d0) = Ok a) news.
Proof.
  revert st. induction ts as [| t rest IH]; intros st; cbn [loop].
  - intros H; inversion H; subst. exists []. now rewrite app_nil_r.
  - destruct (step json_loads w model fps t st) as [st1 r1] eqn:Hstep.
    assert (H1 : exists news,
               all_annotations st1 = all_annotations st ++ news /\
               Forall (fun a => exists t0 d0,
                         In t0 (t :: rest) /\ answered json_loads w model fps t0 d0 /\
                         flatten_annotation t0 (JObj d0) = Ok a) news).
    { destruct (step_appends _ _ _ _ _ _ _ _ Hstep) as [E | (d0 & d & Ha & Hf & E)].
      - exists []. now rewrite app_nil_r.
      - exists [d]. split; [exact E |].
        constructor; [| constructor]. exists t, d0. repeat split; try assumption.
        now left. }
    destruct H1 as (n1 & E1 & F1).
    destruct r1 as [[] | e].
    + intros Hloop. destruct (IH _ Hloop) as (n2 & E2 & F2).
      exists (n1 ++ n2). split; [now rewrite E2, E1, app_assoc |].
      apply Forall_app. split; [exact F1 |].
      eapply Forall_impl; [| exact F2].
      intros a (t0 & d0 & Hin & Ha & Hf). exists t0, d0.
      repeat split; try assumption. now right.
    + intros H; inversion H; subst. exists n1. now split.
Qed.

(** The six cells of a flattened answer. *)
Lemma flatten_row (t : Z) (d0 d : dict) :
  flatten_annotation t (JObj d0) = Ok d -> table_row t d0 (row_of d).
Proof.
  unfold flatten_annotation.
  assert (Hp : get_or_empty "persons" (dict_set "timestamp" (JInt t) d0)
               = get_or_empty "persons" d0).
  { unfold get_or_empty. now rewrite dict_get_set_other by discriminate. }
  rewrite Hp.
  destruct (join_value ", " (get_or_empty "persons" d0)) as [p |] eqn:Hjp;
    [| discriminate].
  cbn [bind].
  assert (Ho : get_or_empty "objects"
                 (dict_set "persons" (JStr p) (dict_set "timestamp" (JInt t) d0))
               = get_or_empty "objects" d0).
  { unfold get_or_empty. now rewrite !dict_get_set_other by discriminate. }
  rewrite Ho.
  destruct (join_value ", " (get_or_empty "objects" d0)) as [o |] eqn:Hjo;
    [| discriminate].
  cbn [bind]. intros H. injection H as <-.
  exists p, o. split; [exact Hjp |]. split; [exact Hjo |].
  unfold row_of, column_order, cell_of. cbn [map].
  rewrite dict_get_set_same.
  rewrite (dict_get_set_other "objects" "persons"), dict_get_set_same by discriminate.
  rewrite (dict_get_set_other "objects" "timestamp"),
    (dict_get_set_other "persons" "timestamp"), dict_get_set_same by discriminate.
  now rewrite !dict_get_set_other by discriminate.
Qed.



(** What a run that wrote a file went through: the start-up checks,
    the two divisions, a loop that ran to its end from the initial
    state, and a table that holds, row by row, the annotations that the
    loop collected. *)
Lemma written_table (json_loads : string -> option json) (w : World)
  (video_path : string) (interval_seconds : Z) (api_url model_name : string)
  (p : PurePath) (df : DataFrame) :
  written (events (process_video json_loads w video_path interval_seconds
                     api_url model_name)) = Some (p, df) ->
  exists d ts st,
    duration_seconds (py_int (cap_frame_count w)) (cap_fps w) = Ok d /\
    timestamps d interval_seconds = Ok ts /\
    loop json_loads w model_name (cap_fps w) ts
      (initial_state w video_path interval_seconds api_url d) = (st, Ok tt) /\
    all_annotations st <> [] /\
    df = mkDF column_order (map row_of (all_annotations st)).
Proof.
  destruct (run_cases json_loads w video_path interval_seconds api_url model_name)
    as [(_ & _ & Hw & _) | [(_ & _ & _ & Hw & _)
       | (Hst & d & ts & st & res & Hd & Hts & _ & Hloop & Hr)]];
    try (intros H; rewrite Hw in H; discriminate H).
  rewrite Hr.
  destruct (loop_from_start _ _ _ _ _ _ _ _ _ _ Hloop) as (Hc & Hquiet & _ & _).
  destruct res as [[] | e'].
  - destruct (finalize_cases w video_path st Hc)
      as [(_ & Hf) | [(_ & Hn & Hf) | [(_ & p' & e & _ & _ & Hf) | (Hne & p' & _ & _ & Hf)]]];
      rewrite Hf; cbn [events]; rewrite written_app, Hquiet; simpl;
      intros H; try discriminate H.
    inversion H; subst; clear H.
    exists d, ts, st. repeat split; assumption.
  - cbn [events]. rewrite Hquiet. discriminate.
Qed.



(** ** Extra keys *)

Lemma dict_mem_app (k : string) (d extra : dict) :
  dict_mem k d = true -> dict_mem k (d ++ extra) = true.
Proof.
  unfold dict_mem. induction d as [| [k0 v0] d IH]; simpl; [discriminate |].
  destruct (String.eqb k0 k); [reflexivity | exact IH].
Qed.

(** C10: validation only asks for the five required keys, so a
    response with further keys is accepted as it is; and the table of
    every file written has exactly the six fixed columns, its rows being
    those of the annotations that the loop collected: each row holds the
    timestamp of a sampled frame and, of the answer of the model for
    that frame, the title, caption and scene description and the joined
    persons and objects, each under its own label.  No other key of an
    answer has a column or a cell. *)
Theorem C10_extra_keys_dropped (json_loads : string -> option json) (w : World)
  (video_path : string) (interval_seconds : Z) (api_url model_name : string) :
  (forall client image model content d extra,
     client model image = ApiContent (Some content) ->
     json_loads (strip_fence content) = Some (JObj (d ++ extra)) ->
     (forall k, In k required_keys -> dict_mem k d = true) ->
     get_frame_annotation json_loads client image model
     = ([ChatCreate model image], Ok (Some (JObj (d ++ extra))))) /\
  (forall p df,
     written (events (process_video json_loads w video_path interval_seconds
                        api_url model_name)) = Some (p, df) ->
     columns df = column_order /\
     List.length (columns df) = 6%nat /\
     exists d ts st,
       duration_seconds (py_int (cap_frame_count w)) (cap_fps w) = Ok d /\
       timestamps d interval_seconds = Ok ts /\
       loop json_loads w model_name (cap_fps w) ts
         (initial_state w video_path interval_seconds api_url d) = (st, Ok tt) /\
       rows df = map row_of (all_annotations st) /\
       Forall (fun row => exists t d0,
                 In t ts /\
                 answered json_loads w model_name (cap_fps w) t d0 /\
                 table_row t d0 row) (rows df)).
Proof.
  split.
  - intros client image model content d extra Hreply Hload Hkeys.
    apply (client_accepts _ _ _ _ content); try assumption.
    intros k Hk. apply dict_mem_app. now apply Hkeys.
  - intros p df Hw.
    destruct (written_table _ _ _ _ _ _ _ _ Hw)
      as (d & ts & st & Hd & Hts & Hloop & Hne & ->).
    cbn [columns rows]. split; [reflexivity |]. split; [reflexivity |].
    exists d, ts, st. repeat (split; [assumption || reflexivity |]).
    destruct (loop_appends _ _ _ _ _ _ _ _ Hloop) as (news & E & F).
    cbn [initial_state all_annotations] in E. rewrite E. cbn [app].
    apply Forall_map. eapply Forall_impl; [| exact F].
    intros a (t & d0 & Hin & Ha & Hf).
    exists t, d0. repeat split; try assumption. now apply flatten_row.
Qed.

(** The sample response carries the key "mood"; it is accepted, and
    the first row of the table written for the sample video holds the
    six values and not the mood. *)
Lemma C10_witness :
  get_frame_annotation decode (fun _ _ => ApiContent (Some sample_text)) "frame" llava
  = ([ChatCreate llava "frame"], Ok (Some (JObj sample_dict))) /\
  dict_get "mood" sample_dict = Some (JStr "cheerful") /\
  exists p df,
    written (events (process_video decode holiday "videos/holiday.mp4" 5
                       localhost llava)) = Some (p, df) /\
    columns df = column_order /\
    hd [] (rows df)
    = [Some (JInt 0); Some (JStr "Beach day");
       Some (JStr "A family walks along the shore.");
       Some (JStr "Two adults and a child, the sea behind.");
       Some (JStr "a, b"); Some (JStr "ball")].
Proof.
  destruct (C10_extra_keys_dropped decode holiday "videos/holiday.mp4" 5
              localhost llava) as [Haccept Htable].
  split; [| split; [reflexivity |]].
  - apply (Haccept (fun _ _ => ApiContent (Some sample_text)) "frame" llava
             sample_text sample_dict []).
    + reflexivity.
    + vm_compute. reflexivity.
    + intros k Hk. simpl in Hk.
      repeat (destruct Hk as [<- | Hk]; [reflexivity |]). contradiction.
  - destruct (written (events (process_video decode holiday "videos/holiday.mp4" 5
                                 localhost llava))) as [[p df] |] eqn:Hw.
    + exists p, df. split; [reflexivity |].
      split; [exact (proj1 (Htable p df eq_refl)) |].
      vm_compute in Hw. injection Hw as _ <-. reflexivity.
    + vm_compute in Hw. discriminate Hw.
Defined.

(** ** No retries *)





(** ** The output path again *)

Lemma written_path (json_loads : string -> option json) (w : World)
  (video_path : string) (interval_seconds : Z) (api_url model_name : string)
  (p : PurePath) (df : DataFrame) :
  written (events (process_video json_loads w video_path interval_seconds
                     api_url model_name)) = Some (p, df) ->
  with_suffix (Path video_path) ".csv" = Ok p.
Proof.
  destruct (run_cases json_loads w video_path interval_seconds api_url model_name)
    as [(_ & _ & Hw & _) | [(_ & _ & _ & Hw & _)
       | (Hst & d & ts & st & res & _ & _ & _ & Hloop & Hr)]];
    try (intros H; rewrite Hw in H; discriminate H).
  rewrite Hr.
  destruct (loop_from_start _ _ _ _ _ _ _ _ _ _ Hloop) as (Hc & Hquiet & _ & _).
  destruct res as [[] | e'].
  - destruct (finalize_cases w video_path st Hc)
      as [(_ & Hf) | [(_ & Hn & Hf) | [(_ & p' & e & _ & _ & Hf) | (Hne & p' & Hp' & _ & Hf)]]];
      rewrite Hf; cbn [events]; rewrite written_app, Hquiet; simpl;
      intros H; try discriminate H.
    inversion H; subst. exact Hp'.
  - cbn [events]. rewrite Hquiet. discriminate.
Qed.

Lemma str_app_empty (s : string) : (s ++ "")%string = s.
Proof. induction s as [| c s IH]; simpl; [reflexivity | now rewrite IH]. Qed.

Lemma stem_suffix_split (nm : string) :
  (name_stem nm ++ name_suffix nm)%string = nm.
Proof.
  unfold name_stem, name_suffix, suffix_dot.
  destruct (rfind "."%char nm) as [i |]; [| now rewrite str_app_empty].
  destruct (Nat.ltb 0 i) eqn:H0; simpl; [| now rewrite str_app_empty].
  destruct (Nat.ltb i (String.length nm - 1)) eqn:H1; simpl;
    [| now rewrite str_app_empty].
  apply Nat.ltb_lt in H1. symmetry. apply substring_split. lia.
Qed.

Lemma str_app_inv_head (a b c : string) : (a ++ b)%string = (a ++ c)%string -> b = c.
Proof.
  induction a as [| x a IH]; simpl; [auto |].
  intros H. inversion H. auto.
Qed.

(** The table replaces the video file itself exactly when the video
    path already ends in [.csv]; with any other name the output is a
    different path. *)
Theorem output_overwrites_input_iff_csv (json_loads : string -> option json)
  (w : World) (video_path : string) (interval_seconds : Z)
  (api_url model_name : string) (p : PurePath) (df : DataFrame) :
  written (events (process_video json_loads w video_path interval_seconds
                     api_url model_name)) = Some (p, df) ->
  (p = Path video_path <-> suffix (Path video_path) = ".csv"%string).
Proof.
  intros Hw. apply written_path in Hw.
  destruct (with_suffix_csv _ _ Hw) as [Hname ->].
  set (P := Path video_path) in *.
  assert (Hparts : parts P = removelast (parts P) ++ [name P]).
  { unfold name. apply app_removelast_last.
    intros E. unfold name in Hname. rewrite E in Hname. now apply Hname. }
  unfold suffix. split.
  - intros H. apply (f_equal parts) in H. cbn [parts] in H.
    rewrite Hparts in H at 2. apply app_inv_head in H.
    assert (Hn : (name_stem (name P) ++ ".csv")%string = name P) by congruence.
    rewrite <- (stem_suffix_split (name P)) in Hn at 2.
    apply str_app_inv_head in Hn. now symmetry.
  - intros H. destruct P as [r ps]. cbn [root parts] in *. f_equal.
    rewrite Hparts at 3. f_equal. f_equal.
    rewrite <- (stem_suffix_split (name (mkPath r ps))) at 2. now rewrite H.
Qed.

Lemma output_overwrites_input_iff_csv_witness :
  exists p df,
    written (events (process_video decode holiday "videos/holiday.mp4" 5
                       localhost llava)) = Some (p, df) /\
    p <> Path "videos/holiday.mp4".
Proof.
  destruct (written (events (process_video decode holiday "videos/holiday.mp4" 5
                               localhost llava))) as [[p df] |] eqn:Hw.
  - exists p, df. split; [reflexivity |]. intros E.
    apply (output_overwrites_input_iff_csv decode holiday "videos/holiday.mp4" 5
             localhost llava p df Hw) in E.
    vm_compute in E. discriminate E.
  - vm_compute in Hw. discriminate Hw.
Defined.

(** The output path does not depend on the extension of the video:
    two paths with the same root, directory and stem give the same
    file, so that [clip.mp4] and [clip.avi] share one table. *)
Theorem output_ignores_extension (P Q : PurePath) :
  root P = root Q ->
  removelast (parts P) = removelast (parts Q) ->
  stem P = stem Q ->
  name P <> ""%string -> name Q <> ""%string ->
  with_suffix P ".csv" = with_suffix Q ".csv" /\
  exists p, with_suffix P ".csv" = Ok p.
Proof.
  intros Hroot Hdir Hstem HP HQ.
  assert (H : forall R, name R <> ""%string ->
            with_suffix R ".csv"
            = Ok (mkPath (root R)
                    (removelast (parts R) ++ [(name_stem (name R) ++ ".csv")%string]))).
  { intros R HR. unfold with_suffix.
    change (str_contains "/" ".csv") with false.
    change (negb (String.eqb ".csv" "") && negb (startswith "." ".csv")
            || String.eqb ".csv" ".")%bool with false.
    cbv iota.
    destruct (String.eqb_spec (name R) "") as [E | _]; [contradiction |].
    destruct (kept_is_stem (name R) HR) as [Hkept _].
    destruct (String.eqb (name_suffix (name R)) "");
      [now rewrite <- Hkept | now rewrite Hkept]. }
  rewrite (H P HP), (H Q HQ). unfold stem in Hstem.
  rewrite Hroot, Hdir, Hstem. split; [reflexivity | eexists; reflexivity].
Qed.

Lemma output_ignores_extension_witness :
  with_suffix (Path "films/clip.mp4") ".csv" = with_suffix (Path "films/clip.avi") ".csv".
Proof.
  apply (output_ignores_extension (Path "films/clip.mp4") (Path "films/clip.avi"));
    try reflexivity; discriminate.
Defined.
